(** * Bitki Seçim Asistanı: the form controller and the location picker

    A shallow embedding of the single React component [App] (with the
    request helpers [fetchRecommendations] and [fetchAIRecommendation]) and
    of the types of [types.ts].

    The component is event driven.  Its React state is the record
    [AppState]; everything that is in flight between two events (geocode
    requests with their abort controllers, the 100 ms timers, the two kinds
    of recommendation requests) is kept next to it in [World].  Every
    callback of the source is a function on [World]; [step] runs the
    callback an event triggers, to completion, as the browser's event loop
    does. *)

From Stdlib Require Import String List ZArith Bool Arith Lia.
Import ListNotations.
Local Open Scope string_scope.

(** ** types.ts *)

Inductive SunExposure := full_sun | partial_shade | shade.
Inductive SoilType := clay | sandy | loam | well_drained | organic.
(* "low" | "medium" | "high", once for water and once for maintenance *)
Inductive WaterPreference := water_low | water_medium | water_high.
Inductive MaintenanceLevel := maint_low | maint_medium | maint_high.
Inductive WindExposure := exposed | sheltered.

Record RecommendationRequest := {
  city : string;
  country : string;
  sun_exposure : SunExposure;
  soil_type : SoilType;
  watering_preference : WaterPreference;
  maintenance_preference : MaintenanceLevel;
  wind_exposure : WindExposure
}.

Record PlantScoreBreakdown := {
  sun : Z; soil : Z; water : Z; maintenance : Z; wind : Z; climate : Z
}.

Record PlantRecommendation := {
  plant_id : Z;
  name_tr : string;
  name_latin : string;
  suitability_status : string;
  total_score : Z;
  cost_level : string;
  maintenance_summary : string;
  breakdown : PlantScoreBreakdown
}.

(* interface AIRecommendationRequest extends RecommendationRequest:
   the inherited fields are [ai_form], the two optional ones follow. *)
Record AIRecommendationRequest := {
  ai_form : RecommendationRequest;
  top_n : option Z;
  language : option string
}.

Module AIChosenPlant.
Record t := { plant_id : Z; reasoning : string; source : string }.
End AIChosenPlant.

Record AIRecommendationResponse := {
  rule_based_results : list PlantRecommendation;
  ai_best : option AIChosenPlant.t
}.

(** ** JavaScript truthiness of strings and the [||] operator

    A string is falsy exactly when it is empty; [undefined] (here [None])
    is falsy. *)

Definition truthy (s : string) : bool := negb (s =? "").

(* [a || b] where [a] may be undefined and [b] is a string *)
Definition or_default (a : option string) (b : string) : string :=
  match a with
  | Some s => if truthy s then s else b
  | None => b
  end.

(* [a || b] where both may be undefined *)
Definition or_else (a b : option string) : option string :=
  match a with
  | Some s => if truthy s then a else b
  | None => b
  end.

(** ** The reverse-geocoding response *)

Module Address.
Record t := {
  state : option string;
  city : option string;
  province : option string;
  region : option string;
  country : option string
}.
(* the [{}] of [data.address || {}] *)
Definition empty : t :=
  {| state := None; city := None; province := None; region := None;
     country := None |}.
End Address.

Record GeoData := { address : option Address.t }.

(** ** React state of [App] *)

(* [number, number]; the coordinates only feed the request URL *)
Definition LatLngTuple : Type := Z * Z.

Record AppState := {
  form : RecommendationRequest;
  loading : bool;
  error : option string;
  results : list PlantRecommendation;
  selectedPosition : option LatLngTuple;
  locationLoading : bool;
  locationError : option string;
  aiLoading : bool;
  aiError : option string;
  aiResult : option AIRecommendationResponse
}.

Definition initialForm : RecommendationRequest :=
  {| city := ""; country := "";
     sun_exposure := full_sun;
     soil_type := well_drained;
     watering_preference := water_medium;
     maintenance_preference := maint_low;
     wind_exposure := exposed |}.

Definition initialState : AppState :=
  {| form := initialForm; loading := false; error := None; results := [];
     selectedPosition := None; locationLoading := false;
     locationError := None; aiLoading := false; aiError := None;
     aiResult := None |}.

Definition setForm (f : RecommendationRequest -> RecommendationRequest)
    (s : AppState) : AppState :=
  {| form := f (form s); loading := loading s; error := error s;
     results := results s; selectedPosition := selectedPosition s;
     locationLoading := locationLoading s; locationError := locationError s;
     aiLoading := aiLoading s; aiError := aiError s; aiResult := aiResult s |}.

Definition setLoading (b : bool) (s : AppState) : AppState :=
  {| form := form s; loading := b; error := error s;
     results := results s; selectedPosition := selectedPosition s;
     locationLoading := locationLoading s; locationError := locationError s;
     aiLoading := aiLoading s; aiError := aiError s; aiResult := aiResult s |}.

Definition setError (e : option string) (s : AppState) : AppState :=
  {| form := form s; loading := loading s; error := e;
     results := results s; selectedPosition := selectedPosition s;
     locationLoading := locationLoading s; locationError := locationError s;
     aiLoading := aiLoading s; aiError := aiError s; aiResult := aiResult s |}.

Definition setResults (r : list PlantRecommendation) (s : AppState) : AppState :=
  {| form := form s; loading := loading s; error := error s;
     results := r; selectedPosition := selectedPosition s;
     locationLoading := locationLoading s; locationError := locationError s;
     aiLoading := aiLoading s; aiError := aiError s; aiResult := aiResult s |}.

Definition setSelectedPosition (p : option LatLngTuple) (s : AppState) : AppState :=
  {| form := form s; loading := loading s; error := error s;
     results := results s; selectedPosition := p;
     locationLoading := locationLoading s; locationError := locationError s;
     aiLoading := aiLoading s; aiError := aiError s; aiResult := aiResult s |}.

Definition setLocationLoading (b : bool) (s : AppState) : AppState :=
  {| form := form s; loading := loading s; error := error s;
     results := results s; selectedPosition := selectedPosition s;
     locationLoading := b; locationError := locationError s;
     aiLoading := aiLoading s; aiError := aiError s; aiResult := aiResult s |}.

Definition setLocationError (e : option string) (s : AppState) : AppState :=
  {| form := form s; loading := loading s; error := error s;
     results := results s; selectedPosition := selectedPosition s;
     locationLoading := locationLoading s; locationError := e;
     aiLoading := aiLoading s; aiError := aiError s; aiResult := aiResult s |}.

Definition setAiLoading (b : bool) (s : AppState) : AppState :=
  {| form := form s; loading := loading s; error := error s;
     results := results s; selectedPosition := selectedPosition s;
     locationLoading := locationLoading s; locationError := locationError s;
     aiLoading := b; aiError := aiError s; aiResult := aiResult s |}.

Definition setAiError (e : option string) (s : AppState) : AppState :=
  {| form := form s; loading := loading s; error := error s;
     results := results s; selectedPosition := selectedPosition s;
     locationLoading := locationLoading s; locationError := locationError s;
     aiLoading := aiLoading s; aiError := e; aiResult := aiResult s |}.

Definition setAiResult (r : option AIRecommendationResponse) (s : AppState) : AppState :=
  {| form := form s; loading := loading s; error := error s;
     results := results s; selectedPosition := selectedPosition s;
     locationLoading := locationLoading s; locationError := locationError s;
     aiLoading := aiLoading s; aiError := aiError s; aiResult := r |}.

(** ** [handleChange]

    [setForm(prev => ({ ...prev, [name]: value }))], where [name] is the
    [name] attribute of one of the seven controls of the form and [value]
    the text of an input or the value of one of a select's options. *)

Inductive FieldChange :=
| ChangeCity (value : string)
| ChangeCountry (value : string)
| ChangeSunExposure (value : SunExposure)
| ChangeSoilType (value : SoilType)
| ChangeWateringPreference (value : WaterPreference)
| ChangeMaintenancePreference (value : MaintenanceLevel)
| ChangeWindExposure (value : WindExposure).

Definition assignField (c : FieldChange) (prev : RecommendationRequest)
    : RecommendationRequest :=
  match c with
  | ChangeCity v =>
      {| city := v; country := country prev;
         sun_exposure := sun_exposure prev; soil_type := soil_type prev;
         watering_preference := watering_preference prev;
         maintenance_preference := maintenance_preference prev;
         wind_exposure := wind_exposure prev |}
  | ChangeCountry v =>
      {| city := city prev; country := v;
         sun_exposure := sun_exposure prev; soil_type := soil_type prev;
         watering_preference := watering_preference prev;
         maintenance_preference := maintenance_preference prev;
         wind_exposure := wind_exposure prev |}
  | ChangeSunExposure v =>
      {| city := city prev; country := country prev;
         sun_exposure := v; soil_type := soil_type prev;
         watering_preference := watering_preference prev;
         maintenance_preference := maintenance_preference prev;
         wind_exposure := wind_exposure prev |}
  | ChangeSoilType v =>
      {| city := city prev; country := country prev;
         sun_exposure := sun_exposure prev; soil_type := v;
         watering_preference := watering_preference prev;
         maintenance_preference := maintenance_preference prev;
         wind_exposure := wind_exposure prev |}
  | ChangeWateringPreference v =>
      {| city := city prev; country := country prev;
         sun_exposure := sun_exposure prev; soil_type := soil_type prev;
         watering_preference := v;
         maintenance_preference := maintenance_preference prev;
         wind_exposure := wind_exposure prev |}
  | ChangeMaintenancePreference v =>
      {| city := city prev; country := country prev;
         sun_exposure := sun_exposure prev; soil_type := soil_type prev;
         watering_preference := watering_preference prev;
         maintenance_preference := v;
         wind_exposure := wind_exposure prev |}
  | ChangeWindExposure v =>
      {| city := city prev; country := country prev;
         sun_exposure := sun_exposure prev; soil_type := soil_type prev;
         watering_preference := watering_preference prev;
         maintenance_preference := maintenance_preference prev;
         wind_exposure := v |}
  end.

Definition handleChange (c : FieldChange) (s : AppState) : AppState :=
  setForm (assignField c) s.

(* [{ ...f, city: c, country: k }] *)
Definition withLocation (f : RecommendationRequest) (c k : string)
    : RecommendationRequest :=
  {| city := c; country := k;
     sun_exposure := sun_exposure f; soil_type := soil_type f;
     watering_preference := watering_preference f;
     maintenance_preference := maintenance_preference f;
     wind_exposure := wind_exposure f |}.

(** ** The outcome of a [fetch] followed by [res.json()] *)

Inductive FetchOutcome (A : Type) :=
| NetworkError                               (* [fetch] rejects *)
| Response (status : Z) (json : option A).   (* [json = None]: the body does not parse *)
Arguments NetworkError {A}.
Arguments Response {A} status json.

(* [res.ok] *)
Definition res_ok (status : Z) : bool := (200 <=? status)%Z && (status <=? 299)%Z.

(* the body [{ results: PlantRecommendation[] }] *)
Record RecommendationsBody := { data_results : list PlantRecommendation }.

(* What the promise of [fetchRecommendations] settles to: [Some] when it
   fulfils, [None] when it rejects (network failure, [throw new
   Error("API error")] on [!res.ok], or a body that is not JSON). *)
Definition fetchRecommendations (o : FetchOutcome RecommendationsBody)
    : option RecommendationsBody :=
  match o with
  | NetworkError => None
  | Response status json => if res_ok status then json else None
  end.

Definition fetchAIRecommendation (o : FetchOutcome AIRecommendationResponse)
    : option AIRecommendationResponse :=
  match o with
  | NetworkError => None
  | Response status json => if res_ok status then json else None
  end.

(** ** What is in flight between two events *)

Inductive GeoStatus := GeoPending | GeoAborted | GeoSettled.

(* One run of the effect on [selectedPosition]: its geocode request, whose
   id also names its [AbortController], and the [form] its closure
   captured, which is the form of the render the effect ran after. *)
Record GeoRequest := {
  geo_id : nat;
  geo_pos : LatLngTuple;
  geo_form : RecommendationRequest;
  geo_status : GeoStatus
}.

(* A pending [setTimeout(..., 100)] with what its closure refers to. *)
Record Timer := {
  timer_id : nat;
  timer_form : RecommendationRequest;
  timer_province : string;
  timer_country : string
}.

Inductive Origin := FromSubmit | FromTimer.

Record RecFetch := {
  rec_id : nat;
  rec_body : RecommendationRequest;
  rec_origin : Origin
}.

Record AIFetch := { aif_id : nat; aif_body : AIRecommendationRequest }.

Record World := {
  ui : AppState;
  controller : option nat;   (* what the cleanup of the last effect aborts *)
  geos : list GeoRequest;
  timers : list Timer;
  rec_fetches : list RecFetch;
  ai_fetches : list AIFetch;
  next_id : nat
}.

Definition init : World :=
  {| ui := initialState; controller := None; geos := []; timers := [];
     rec_fetches := []; ai_fetches := []; next_id := 0 |}.

Definition with_ui (f : AppState -> AppState) (w : World) : World :=
  {| ui := f (ui w); controller := controller w; geos := geos w;
     timers := timers w; rec_fetches := rec_fetches w;
     ai_fetches := ai_fetches w; next_id := next_id w |}.

Definition find_geo (gid : nat) (l : list GeoRequest) : option GeoRequest :=
  find (fun g => (geo_id g =? gid)%nat) l.

Definition find_timer (tid : nat) (l : list Timer) : option Timer :=
  find (fun t => (timer_id t =? tid)%nat) l.

Definition find_rec (rid : nat) (l : list RecFetch) : option RecFetch :=
  find (fun f => (rec_id f =? rid)%nat) l.

Definition find_ai (aid : nat) (l : list AIFetch) : option AIFetch :=
  find (fun f => (aif_id f =? aid)%nat) l.

Definition is_pending (g : GeoRequest) : bool :=
  match geo_status g with GeoPending => true | _ => false end.

Definition set_status (st : GeoStatus) (g : GeoRequest) : GeoRequest :=
  {| geo_id := geo_id g; geo_pos := geo_pos g; geo_form := geo_form g;
     geo_status := st |}.

(* the request [gid], if it is still pending, gets status [st] *)
Definition close_geo (gid : nat) (st : GeoStatus) (l : list GeoRequest)
    : list GeoRequest :=
  map (fun g => if (geo_id g =? gid)%nat && is_pending g then set_status st g else g) l.

(** ** The plain recommendation request: [handleSubmit] *)

Definition recommendationError : string := "Öneriler alınırken bir hata oluştu.".

(* the statements of [handleSubmit] up to the [await] *)
Definition handleSubmit (w : World) : World :=
  let s := setAiResult None (setError None (setLoading true (ui w))) in
  {| ui := s; controller := controller w; geos := geos w; timers := timers w;
     rec_fetches := rec_fetches w ++
       [{| rec_id := next_id w; rec_body := form (ui w); rec_origin := FromSubmit |}];
     ai_fetches := ai_fetches w; next_id := S (next_id w) |}.

(* the rest of [handleSubmit]: try / catch / finally *)
Definition handleSubmit_settled (o : FetchOutcome RecommendationsBody)
    (s : AppState) : AppState :=
  let s1 :=
    match fetchRecommendations o with
    | Some data => setResults (data_results data) s
    | None => setError (Some recommendationError) s
    end in
  setLoading false s1.

(* the [.then / .catch / .finally] chain of the request the timer issues *)
Definition autoFetch_settled (o : FetchOutcome RecommendationsBody)
    (s : AppState) : AppState :=
  let s1 :=
    match fetchRecommendations o with
    | Some data => setResults (data_results data) s
    | None => setError (Some recommendationError) s
    end in
  setLoading false s1.

Definition drop_rec (rid : nat) (l : list RecFetch) : list RecFetch :=
  filter (fun f => negb (rec_id f =? rid)%nat) l.

Definition recSettled (f : RecFetch) (o : FetchOutcome RecommendationsBody)
    (w : World) : World :=
  let k := match rec_origin f with
           | FromSubmit => handleSubmit_settled o
           | FromTimer => autoFetch_settled o
           end in
  {| ui := k (ui w); controller := controller w; geos := geos w;
     timers := timers w; rec_fetches := drop_rec (rec_id f) (rec_fetches w);
     ai_fetches := ai_fetches w; next_id := next_id w |}.

(* The submit button has [disabled={loading}] and the two text inputs are
   [required], so the browser fires [onSubmit] only in these states. *)
Definition submit_enabled (s : AppState) : bool :=
  negb (loading s) && truthy (city (form s)) && truthy (country (form s)).

(** ** The AI request: [handleAIRecommendation] *)

Definition aiErrorMessage : string := "AI önerisi alınamadı. Lütfen tekrar deneyin.".

(* [{ ...form, top_n: 5, language: "tr" }] *)
Definition aiPayload (f : RecommendationRequest) : AIRecommendationRequest :=
  {| ai_form := f; top_n := Some 5%Z; language := Some "tr" |}.

Definition handleAIRecommendation (w : World) : World :=
  let s := setAiError None (setAiLoading true (ui w)) in
  {| ui := s; controller := controller w; geos := geos w; timers := timers w;
     rec_fetches := rec_fetches w;
     ai_fetches := ai_fetches w ++
       [{| aif_id := next_id w; aif_body := aiPayload (form (ui w)) |}];
     next_id := S (next_id w) |}.

Definition handleAIRecommendation_settled
    (o : FetchOutcome AIRecommendationResponse) (s : AppState) : AppState :=
  let s1 :=
    match fetchAIRecommendation o with
    | Some data => setResults (rule_based_results data) (setAiResult (Some data) s)
    | None => setAiError (Some aiErrorMessage) s
    end in
  setAiLoading false s1.

Definition drop_ai (aid : nat) (l : list AIFetch) : list AIFetch :=
  filter (fun f => negb (aif_id f =? aid)%nat) l.

Definition aiSettled (f : AIFetch) (o : FetchOutcome AIRecommendationResponse)
    (w : World) : World :=
  {| ui := handleAIRecommendation_settled o (ui w); controller := controller w;
     geos := geos w; timers := timers w; rec_fetches := rec_fetches w;
     ai_fetches := drop_ai (aif_id f) (ai_fetches w); next_id := next_id w |}.

(* [disabled={aiLoading || !form.city || !form.country}] *)
Definition ai_button_disabled (s : AppState) : bool :=
  aiLoading s || negb (truthy (city (form s))) || negb (truthy (country (form s))).

(** ** The effect on [selectedPosition]: reverse geocoding *)

Definition locationUndetected : string :=
  "Could not detect city from this point, please type it manually.".

Definition locationUnreachable : string :=
  "Could not reach location service. Please type city manually.".

(* [a || b] on two strings *)
Definition or_str (a b : string) : string := if truthy a then a else b.

(* [address.state || address.city || address.province || address.region || ""] *)
Definition resolvedProvince (a : Address.t) : string :=
  or_default
    (or_else (or_else (or_else (Address.state a) (Address.city a))
                      (Address.province a))
             (Address.region a))
    "".

(* [address.country || ""] *)
Definition resolvedCountry (a : Address.t) : string :=
  or_default (Address.country a) "".

(* [data.address || {}] *)
Definition addressOf (data : GeoData) : Address.t :=
  match address data with
  | Some a => a
  | None => Address.empty
  end.

(* [setForm(prev => ({ ...prev, city: province || prev.city,
                                 country: country || prev.country }))] *)
Definition mergeLocation (prov ctry : string) (prev : RecommendationRequest)
    : RecommendationRequest :=
  withLocation prev (or_str prov (city prev)) (or_str ctry (country prev)).

(* The cleanup of the effect, [() => controller.abort()]: the requests as
   they are once the controller of the last effect has been aborted. *)
Definition cleaned (w : World) : list GeoRequest :=
  match controller w with
  | Some c => close_geo c GeoAborted (geos w)
  | None => geos w
  end.

(* A map click: [setSelectedPosition(newPos)], then React runs the cleanup
   of the previous effect ([controller.abort()]) and the new effect, which
   sets the two location flags and starts a request under a new controller.
   When the abort hits a request that is still pending, its promise chain
   rejects with an AbortError: the two [.then] are skipped, [.catch]
   returns, and [.finally] runs [setLocationLoading(false)] once the effect
   has returned. *)
Definition selectPoint (pos : LatLngTuple) (w : World) : World :=
  let aborts :=
    match controller w with
    | Some c =>
        match find_geo c (geos w) with
        | Some g => is_pending g
        | None => false
        end
    | None => false
    end in
  let s1 := setSelectedPosition (Some pos) (ui w) in
  let s2 := setLocationError None (setLocationLoading true s1) in
  let s3 := if aborts then setLocationLoading false s2 else s2 in
  {| ui := s3; controller := Some (next_id w);
     geos := cleaned w ++
       [{| geo_id := next_id w; geo_pos := pos; geo_form := form (ui w);
           geo_status := GeoPending |}];
     timers := timers w; rec_fetches := rec_fetches w;
     ai_fetches := ai_fetches w; next_id := S (next_id w) |}.

(* The second [.then] of the effect, run with the parsed body of a request
   that was not aborted, followed by [.finally]. *)
Definition geocodeResolved (g : GeoRequest) (data : GeoData) (w : World) : World :=
  let a := addressOf data in
  let prov := resolvedProvince a in
  let ctry := resolvedCountry a in
  let gs := close_geo (geo_id g) GeoSettled (geos w) in
  if negb (truthy prov) && negb (truthy ctry) then
    {| ui := setLocationLoading false
               (setLocationError (Some locationUndetected) (ui w));
       controller := controller w; geos := gs; timers := timers w;
       rec_fetches := rec_fetches w; ai_fetches := ai_fetches w;
       next_id := next_id w |}
  else
    {| ui := setLocationLoading false (setForm (mergeLocation prov ctry) (ui w));
       controller := controller w; geos := gs;
       timers := timers w ++
         [{| timer_id := next_id w; timer_form := geo_form g;
             timer_province := prov; timer_country := ctry |}];
       rec_fetches := rec_fetches w; ai_fetches := ai_fetches w;
       next_id := S (next_id w) |}.

(* [.catch] with an error that is not an AbortError, followed by [.finally] *)
Definition geocodeFailed (g : GeoRequest) (w : World) : World :=
  {| ui := setLocationLoading false
             (setLocationError (Some locationUnreachable) (ui w));
     controller := controller w;
     geos := close_geo (geo_id g) GeoSettled (geos w);
     timers := timers w; rec_fetches := rec_fetches w;
     ai_fetches := ai_fetches w; next_id := next_id w |}.

Definition drop_timer (tid : nat) (l : list Timer) : list Timer :=
  filter (fun t => negb (timer_id t =? tid)%nat) l.

(* The callback of [setTimeout]: [form] is the one the effect closed over. *)
Definition timerFired (t : Timer) (w : World) : World :=
  let f := timer_form t in
  let updatedForm :=
    withLocation f (or_str (timer_province t) (city f))
                   (or_str (timer_country t) (country f)) in
  {| ui := setAiResult None (setError None (setLoading true (ui w)));
     controller := controller w; geos := geos w;
     timers := drop_timer (timer_id t) (timers w);
     rec_fetches := rec_fetches w ++
       [{| rec_id := next_id w; rec_body := updatedForm; rec_origin := FromTimer |}];
     ai_fetches := ai_fetches w; next_id := S (next_id w) |}.

(** ** Events and the event loop *)

Inductive Event :=
| EvChange (c : FieldChange)
| EvSubmit
| EvAIClick
| EvMapClick (pos : LatLngTuple)
| EvGeoResponse (gid : nat) (data : GeoData)
| EvGeoFailure (gid : nat)
| EvTimer (tid : nat)
| EvRecSettled (rid : nat) (o : FetchOutcome RecommendationsBody)
| EvAISettled (aid : nat) (o : FetchOutcome AIRecommendationResponse).

(* An event that names a request or timer that is not pending (never
   issued, already settled, or aborted) runs no callback. *)
Definition step (w : World) (ev : Event) : World :=
  match ev with
  | EvChange c => with_ui (handleChange c) w
  | EvSubmit => if submit_enabled (ui w) then handleSubmit w else w
  | EvAIClick => if ai_button_disabled (ui w) then w else handleAIRecommendation w
  | EvMapClick pos => selectPoint pos w
  | EvGeoResponse gid data =>
      match find_geo gid (geos w) with
      | Some g => if is_pending g then geocodeResolved g data w else w
      | None => w
      end
  | EvGeoFailure gid =>
      match find_geo gid (geos w) with
      | Some g => if is_pending g then geocodeFailed g w else w
      | None => w
      end
  | EvTimer tid =>
      match find_timer tid (timers w) with
      | Some t => timerFired t w
      | None => w
      end
  | EvRecSettled rid o =>
      match find_rec rid (rec_fetches w) with
      | Some f => recSettled f o w
      | None => w
      end
  | EvAISettled aid o =>
      match find_ai aid (ai_fetches w) with
      | Some f => aiSettled f o w
      | None => w
      end
  end.

Definition run (w : World) (evs : list Event) : World := fold_left step evs w.

Inductive reachable : World -> Prop :=
| reach_init : reachable init
| reach_step : forall w ev, reachable w -> reachable (step w ev).

(** ** Rendering of the AI best pick *)

Definition unknownPlant : string := "Bilinmeyen bitki".

(* [results.find((p) => p.plant_id === aiResult.ai_best?.plant_id)] *)
Definition findChosen (rs : list PlantRecommendation) (b : AIChosenPlant.t)
    : option PlantRecommendation :=
  find (fun p => (plant_id p =? AIChosenPlant.plant_id b)%Z) rs.

Definition chosenLabel (rs : list PlantRecommendation) (b : AIChosenPlant.t) : string :=
  match findChosen rs b with
  | Some chosen => name_tr chosen ++ " (" ++ name_latin chosen ++ ")"
  | None => unknownPlant
  end.

(* The block under [aiResult && aiResult.ai_best && (...)]: the label of
   the best pick and its reasoning, or nothing. *)
Definition renderAIBest (s : AppState) : option (string * string) :=
  match aiResult s with
  | Some r =>
      match ai_best r with
      | Some b => Some (chosenLabel (results s) b, AIChosenPlant.reasoning b)
      | None => None
      end
  | None => None
  end.

(** ** Rendering of the result list, of the location picker and of the
    form's controls *)

(* the background and the text colour of the status badge of a card *)
Definition bgColor (status : string) : string :=
  if status =? "Çok Uygun" then "#dcfce7"
  else if status =? "Uygun" then "#e0f2fe"
  else "#fee2e2".

Definition textColor (status : string) : string :=
  if status =? "Çok Uygun" then "#166534"
  else if status =? "Uygun" then "#075985"
  else "#b91c1c".

(* what a chip of a card shows after its label *)
Inductive ChipValue :=
| ChipText (s : string)
| ChipNumber (n : Z).

(* one card of [results.map((plant) => ...)] *)
Record PlantCard := {
  card_key : Z;
  card_name : string;
  card_latin : string;
  card_status : string;
  card_bg : string;
  card_color : string;
  card_score : Z;
  card_summary : string;
  card_chips : list (string * ChipValue)
}.

Definition plantCard (plant : PlantRecommendation) : PlantCard :=
  let status := suitability_status plant in
  {| card_key := plant_id plant;
     card_name := name_tr plant;
     card_latin := name_latin plant;
     card_status := status;
     card_bg := bgColor status;
     card_color := textColor status;
     card_score := total_score plant;
     card_summary := maintenance_summary plant;
     card_chips :=
       [("Cost: ", ChipText (cost_level plant));
        ("Sun: ", ChipNumber (sun (breakdown plant)));
        ("Soil: ", ChipNumber (soil (breakdown plant)));
        ("Water: ", ChipNumber (water (breakdown plant)));
        ("Maint.: ", ChipNumber (maintenance (breakdown plant)));
        ("Wind: ", ChipNumber (wind (breakdown plant)));
        ("Climate: ", ChipNumber (climate (breakdown plant)))] |}.

(* [results.length === 0 ? <p>...</p> : <div>{results.map(...)}</div>] *)
Inductive ResultsView :=
| EmptyHint
| Cards (cards : list PlantCard).

Definition renderResults (s : AppState) : ResultsView :=
  if (length (results s) =? 0)%nat then EmptyHint
  else Cards (map plantCard (results s)).

(* [results.length > 0 && <span>{results.length} bitki bulundu</span>]:
   the number the badge shows, if it is shown *)
Definition renderCount (s : AppState) : option nat :=
  if (0 <? length (results s))%nat then Some (length (results s)) else None.

(* [LocationClickMarker]: [position ? <Marker position={position} /> : null] *)
Definition renderMarker (s : AppState) : option LatLngTuple := selectedPosition s.

(* two of the paragraphs under the map: [locationLoading && ...] and
   [locationError && ...] *)
Definition detectingBanner (s : AppState) : bool := locationLoading s.

Definition locationErrorText (s : AppState) : option string :=
  match locationError s with
  | Some e => if truthy e then Some e else None
  | None => None
  end.

(** ** The controls of the form as [handleChange] sees them *)

(* the [value] of a control: the text of an input or the option of a select *)
Inductive FieldValue :=
| TextValue (s : string)
| SunValue (v : SunExposure)
| SoilValue (v : SoilType)
| WaterValue (v : WaterPreference)
| MaintenanceValue (v : MaintenanceLevel)
| WindValue (v : WindExposure).

(* [e.target.name] *)
Definition changeName (c : FieldChange) : string :=
  match c with
  | ChangeCity _ => "city"
  | ChangeCountry _ => "country"
  | ChangeSunExposure _ => "sun_exposure"
  | ChangeSoilType _ => "soil_type"
  | ChangeWateringPreference _ => "watering_preference"
  | ChangeMaintenancePreference _ => "maintenance_preference"
  | ChangeWindExposure _ => "wind_exposure"
  end.

(* [e.target.value] *)
Definition changeValue (c : FieldChange) : FieldValue :=
  match c with
  | ChangeCity v => TextValue v
  | ChangeCountry v => TextValue v
  | ChangeSunExposure v => SunValue v
  | ChangeSoilType v => SoilValue v
  | ChangeWateringPreference v => WaterValue v
  | ChangeMaintenancePreference v => MaintenanceValue v
  | ChangeWindExposure v => WindValue v
  end.

(* [form[name]], which the control called [name] displays as its value *)
Definition readField (name : string) (f : RecommendationRequest) : option FieldValue :=
  if name =? "city" then Some (TextValue (city f))
  else if name =? "country" then Some (TextValue (country f))
  else if name =? "sun_exposure" then Some (SunValue (sun_exposure f))
  else if name =? "soil_type" then Some (SoilValue (soil_type f))
  else if name =? "watering_preference" then Some (WaterValue (watering_preference f))
  else if name =? "maintenance_preference"
       then Some (MaintenanceValue (maintenance_preference f))
  else if name =? "wind_exposure" then Some (WindValue (wind_exposure f))
  else None.

(** ** Predicates used in the statements *)

(* the geocode request [a] exists and is no longer pending *)
Definition geo_closed (a : nat) (w : World) : Prop :=
  exists g, find_geo a (geos w) = Some g /\ is_pending g = false.

(* ids are below the counter, geocode ids are distinct, and only the
   request of the current effect can be pending *)
Record world_inv (w : World) : Prop := {
  inv_fresh : forall g, In g (geos w) -> geo_id g < next_id w;
  inv_timer_fresh : forall t, In t (timers w) -> timer_id t < next_id w;
  inv_nodup : NoDup (map geo_id (geos w));
  inv_current : forall g, In g (geos w) -> is_pending g = true ->
                          controller w = Some (geo_id g)
}.

(* [aiLoading] is set exactly while an AI request is in flight, and there
   is never more than one *)
Definition ai_inv (w : World) : Prop :=
  (aiLoading (ui w) = false /\ ai_fetches w = []) \/
  (aiLoading (ui w) = true /\ exists f, ai_fetches w = [f]).

(* an AI request carries the two constants *)
Definition fixed_fields (f : AIFetch) : Prop :=
  top_n (aif_body f) = Some 5%Z /\ language (aif_body f) = Some "tr".

(* the request failed: no connection, or a status outside 200..299 *)
Definition request_failed {A : Type} (o : FetchOutcome A) : Prop :=
  o = NetworkError \/
  exists status json, o = Response status json /\ ~ (200 <= status <= 299)%Z.

Definition is_ai_settlement (ev : Event) : bool :=
  match ev with
  | EvAISettled _ _ => true
  | _ => false
  end.

(* the step issues a plain recommendation request: one more is in flight *)
Definition issues_plain_request (w : World) (ev : Event) : Prop :=
  length (rec_fetches w) < length (rec_fetches (step w ev)).

(* a field of the address that is absent or the empty string *)
Definition blank (x : option string) : Prop := x = None \/ x = Some "".

(* the address is missing, or its five fields are all blank *)
Definition address_blank (data : GeoData) : Prop :=
  match address data with
  | None => True
  | Some a =>
      blank (Address.state a) /\ blank (Address.city a) /\
      blank (Address.province a) /\ blank (Address.region a) /\
      blank (Address.country a)
  end.

(* The first non-empty entry of a list of optional fields, in list order:
   the priority rule as the specification words it. *)
Fixpoint spec_first_nonempty (l : list (option string)) : option string :=
  match l with
  | [] => None
  | Some s :: rest => if (s =? "") then spec_first_nonempty rest else Some s
  | None :: rest => spec_first_nonempty rest
  end.

Definition placeFields (a : Address.t) : list (option string) :=
  [Address.state a; Address.city a; Address.province a; Address.region a].

(** ** Scenarios *)

Definition pointA : LatLngTuple := (39%Z, 35%Z).
Definition pointB : LatLngTuple := (38%Z, 27%Z).

Definition mkAddress (st ci co : option string) : GeoData :=
  {| address := Some {| Address.state := st; Address.city := ci;
                        Address.province := None; Address.region := None;
                        Address.country := co |} |}.

Definition izmirData : GeoData := mkAddress (Some "Izmir") None (Some "Turkey").
Definition countryOnly : GeoData := mkAddress None None (Some "Turkey").
Definition stateAndCity : GeoData :=
  mkAddress (Some "Izmir") (Some "Bornova") (Some "Turkey").
Definition blankData : GeoData :=
  {| address := Some {| Address.state := Some ""; Address.city := None;
                        Address.province := None; Address.region := Some "";
                        Address.country := None |} |}.

(* the user has typed a city and a country *)
Definition izmirWorld : World :=
  run init [EvChange (ChangeCity "Izmir"); EvChange (ChangeCountry "Turkey")].

(* the user has typed a city and clicked the map *)
Definition clickedMap : World :=
  run init [EvChange (ChangeCity "Izmir"); EvMapClick pointA].

Definition rose : PlantRecommendation :=
  {| plant_id := 1; name_tr := "Gül"; name_latin := "Rosa";
     suitability_status := "Uygun"; total_score := 87; cost_level := "low";
     maintenance_summary := "";
     breakdown := {| sun := 20; soil := 15; water := 15; maintenance := 12;
                     wind := 10; climate := 15 |} |}.

(* a first request has succeeded with one plant, a second one is in flight *)
Definition afterFirstSuccess : World :=
  run izmirWorld
      [EvSubmit; EvRecSettled 0 (Response 200 (Some {| data_results := [rose] |}));
       EvSubmit].

Definition aiAnswer : AIRecommendationResponse :=
  {| rule_based_results := [rose];
     ai_best := Some {| AIChosenPlant.plant_id := 1;
                        AIChosenPlant.reasoning := "Güneşli alan için uygun.";
                        AIChosenPlant.source := "ai" |} |}.

(* an AI best pick is on display *)
Definition afterAI : World :=
  run izmirWorld [EvAIClick; EvAISettled 0 (Response 200 (Some aiAnswer))].

Definition strayPick : AIChosenPlant.t :=
  {| AIChosenPlant.plant_id := 99;
     AIChosenPlant.reasoning := "Kuraklığa dayanıklı.";
     AIChosenPlant.source := "ai" |}.

Definition strayAnswer : AIRecommendationResponse :=
  {| rule_based_results := [rose]; ai_best := Some strayPick |}.

(* the server picks plant 99, which is not among the results it sent *)
Definition afterStrayAI : World :=
  run izmirWorld [EvAIClick; EvAISettled 0 (Response 200 (Some strayAnswer))].

(* The user clicks the map, types a city while the geocode request is in
   flight, the service answers with a country only, and the timer fires. *)
Definition editDuringGeocode : list Event :=
  [EvMapClick pointA; EvChange (ChangeCity "Ankara");
   EvGeoResponse 0 countryOnly; EvTimer 1].

(** ** Further predicates and scenarios *)

Definition is_map_click (ev : Event) : bool :=
  match ev with
  | EvMapClick _ => true
  | _ => false
  end.

(* the event delivers the outcome of the geocode request [gid] *)
Definition settles_geo (gid : nat) (ev : Event) : bool :=
  match ev with
  | EvGeoResponse g _ => (g =? gid)%nat
  | EvGeoFailure g => (g =? gid)%nat
  | _ => false
  end.

Definition fires_timer (tid : nat) (ev : Event) : bool :=
  match ev with
  | EvTimer t => (t =? tid)%nat
  | _ => false
  end.

Definition settles_rec (rid : nat) (ev : Event) : bool :=
  match ev with
  | EvRecSettled r _ => (r =? rid)%nat
  | _ => false
  end.

Definition settles_ai (aid : nat) (ev : Event) : bool :=
  match ev with
  | EvAISettled a _ => (a =? aid)%nat
  | _ => false
  end.

(* the position of the last map click of a trace, [d] when there is none *)
Definition lastClick (evs : list Event) (d : option LatLngTuple) : option LatLngTuple :=
  fold_left (fun acc ev => match ev with
                           | EvMapClick pos => Some pos
                           | _ => acc
                           end) evs d.

(* a body that names a city and a country *)
Definition located (f : RecommendationRequest) : Prop :=
  city f <> "" /\ country f <> "".

(* some geocode request is pending *)
Definition geocoding (w : World) : Prop :=
  exists g, In g (geos w) /\ is_pending g = true.

(* what holds of every request in flight and of every pending timer *)
Record request_inv (w : World) : Prop := {
  rinv_rec_fresh : forall f, In f (rec_fetches w) -> rec_id f < next_id w;
  rinv_ai_fresh : forall f, In f (ai_fetches w) -> aif_id f < next_id w;
  rinv_timer_set : forall t, In t (timers w) ->
                             timer_province t <> "" \/ timer_country t <> "";
  rinv_submit : forall f, In f (rec_fetches w) -> rec_origin f = FromSubmit ->
                          located (rec_body f);
  rinv_timer : forall f, In f (rec_fetches w) -> rec_origin f = FromTimer ->
                         city (rec_body f) <> "" \/ country (rec_body f) <> "";
  rinv_ai : forall f, In f (ai_fetches w) -> located (ai_form (aif_body f))
}.

(* what the loading flags and the location error say about what is in flight *)
Record flag_inv (w : World) : Prop := {
  finv_loading : loading (ui w) = true -> rec_fetches w <> [];
  finv_locating : locationLoading (ui w) = true -> geocoding w;
  finv_no_error : geocoding w -> locationError (ui w) = None
}.

(* the map has not been used, and plain requests are issued one at a time *)
Definition sequential (w : World) : Prop :=
  geos w = [] /\ timers w = [] /\
  ((loading (ui w) = false /\ rec_fetches w = []) \/
   (loading (ui w) = true /\ exists f, rec_fetches w = [f])).

(* the promise rejects: [fetch] fails, the status is outside 200..299, or
   the body does not parse *)
Definition rejected {A : Type} (o : FetchOutcome A) : Prop :=
  o = NetworkError \/
  exists status json, o = Response status json /\
                      (~ (200 <= status <= 299)%Z \/ json = None).

(* a map click while the request of the previous click is still pending *)
Definition twoClicks : World := run init [EvMapClick pointA; EvMapClick pointB].

(* a submit and the auto-fetch of a map click overlap, and the auto-fetch
   settles first *)
Definition overlapped : World :=
  run izmirWorld
      [EvMapClick pointA; EvGeoResponse 0 izmirData; EvSubmit; EvTimer 1;
       EvRecSettled 3 (Response 200 (Some {| data_results := [rose] |}))].

Definition lavender : PlantRecommendation :=
  {| plant_id := 2; name_tr := "Lavanta"; name_latin := "Lavandula";
     suitability_status := "Çok Uygun"; total_score := 93; cost_level := "low";
     maintenance_summary := "";
     breakdown := {| sun := 20; soil := 18; water := 15; maintenance := 15;
                     wind := 10; climate := 15 |} |}.

(** * Properties *)

(* case analysis on an event and on the guards and lookups of [step] *)
Ltac step_cases ev :=
  destruct ev; simpl;
  repeat match goal with
    | |- context [if submit_enabled ?s then _ else _] =>
        destruct (submit_enabled s) eqn:?
    | |- context [if ai_button_disabled ?s then _ else _] =>
        destruct (ai_button_disabled s) eqn:?
    | |- context [match find_geo ?a ?l with Some _ => _ | None => _ end] =>
        destruct (find_geo a l) eqn:?
    | |- context [if is_pending ?g then _ else _] =>
        destruct (is_pending g) eqn:?
    | |- context [match find_timer ?a ?l with Some _ => _ | None => _ end] =>
        destruct (find_timer a l) eqn:?
    | |- context [match find_rec ?a ?l with Some _ => _ | None => _ end] =>
        destruct (find_rec a l) eqn:?
    | |- context [match find_ai ?a ?l with Some _ => _ | None => _ end] =>
        destruct (find_ai a l) eqn:?
    end.

Lemma reachable_run : forall evs w, reachable w -> reachable (run w evs).
Proof.
  induction evs as [|ev evs IH]; intros w Hw; simpl.
  - exact Hw.
  - apply IH. now constructor.
Qed.

Lemma truthy_false_iff : forall s, truthy s = false <-> s = "".
Proof.
  intros s. unfold truthy. rewrite negb_false_iff. apply String.eqb_eq.
Qed.

Lemma truthy_true_iff : forall s, truthy s = true <-> s <> "".
Proof.
  intros s. unfold truthy. rewrite negb_true_iff. apply String.eqb_neq.
Qed.

Lemma filter_none : forall (A : Type) (p : A -> bool) (l : list A),
  (forall x, In x l -> p x = false) -> filter p l = [].
Proof.
  intros A p l. induction l as [|x l IH]; intros H; simpl; [reflexivity|].
  rewrite (H x (or_introl eq_refl)). apply IH. intros y Hy. apply H. now right.
Qed.

(** ** The geocode requests: cancellation, ids, at most one pending *)

Section Closing.

Variables (c : nat) (st : GeoStatus).

Lemma close_geo_ids : forall l, map geo_id (close_geo c st l) = map geo_id l.
Proof.
  intros l. unfold close_geo. rewrite map_map. apply map_ext.
  intros g. now destruct (_ && _).
Qed.

(* every request of the closed list comes from one of the same id, and a
   pending one was pending before and is not the one being closed *)
Lemma close_geo_In : forall l g,
  st <> GeoPending -> In g (close_geo c st l) ->
  exists g0, In g0 l /\ geo_id g = geo_id g0 /\
             (is_pending g = true -> g = g0 /\ geo_id g0 <> c).
Proof.
  intros l g Hst Hin. unfold close_geo in Hin.
  apply in_map_iff in Hin. destruct Hin as [g0 [Heq Hin0]].
  exists g0. split; [exact Hin0|].
  destruct (geo_id g0 =? c)%nat eqn:Hid; simpl in Heq.
  - destruct (is_pending g0) eqn:Hp; subst g.
    + split; [reflexivity|]. unfold is_pending, set_status; simpl.
      destruct st; congruence.
    + split; [reflexivity|]. congruence.
  - subst g. split; [reflexivity|]. intros _. split; [reflexivity|].
    now apply Nat.eqb_neq.
Qed.

Lemma find_geo_close : forall a l,
  find_geo a (close_geo c st l) =
  option_map (fun g => if (geo_id g =? c)%nat && is_pending g
                       then set_status st g else g)
             (find_geo a l).
Proof.
  intros a l. unfold find_geo, close_geo.
  induction l as [|g l IH]; simpl; [reflexivity|].
  assert (Hid : geo_id (if (geo_id g =? c)%nat && is_pending g
                        then set_status st g else g) = geo_id g)
    by now destruct (_ && _).
  rewrite Hid. destruct (geo_id g =? a)%nat; [reflexivity | exact IH].
Qed.

End Closing.

Lemma find_geo_app : forall a l1 l2 g,
  find_geo a l1 = Some g -> find_geo a (l1 ++ l2) = Some g.
Proof.
  intros a l1 l2 g. unfold find_geo.
  induction l1 as [|x l1 IH]; simpl; [discriminate|].
  destruct (geo_id x =? a)%nat; [trivial | exact IH].
Qed.

Lemma find_geo_In : forall a l g,
  find_geo a l = Some g -> In g l /\ geo_id g = a.
Proof.
  intros a l g Hf. unfold find_geo in Hf. apply find_some in Hf.
  destruct Hf as [Hin Hid]. split; [exact Hin | now apply Nat.eqb_eq].
Qed.

Lemma find_geo_fresh : forall a l g,
  (forall x, In x l -> geo_id x < a) -> geo_id g = a ->
  find_geo a (l ++ [g]) = Some g.
Proof.
  intros a l g Hl Hg. unfold find_geo.
  induction l as [|x l IH]; simpl.
  - now rewrite Hg, Nat.eqb_refl.
  - assert (Hx : geo_id x < a) by (apply Hl; now left).
    apply Nat.lt_neq in Hx. apply Nat.eqb_neq in Hx. rewrite Hx.
    apply IH. intros y Hy. apply Hl. now right.
Qed.

Lemma find_timer_fresh : forall a l t,
  (forall x, In x l -> timer_id x < a) -> timer_id t = a ->
  find_timer a (l ++ [t]) = Some t.
Proof.
  intros a l t Hl Ht. unfold find_timer.
  induction l as [|x l IH]; simpl.
  - now rewrite Ht, Nat.eqb_refl.
  - assert (Hx : timer_id x < a) by (apply Hl; now left).
    apply Nat.lt_neq in Hx. apply Nat.eqb_neq in Hx. rewrite Hx.
    apply IH. intros y Hy. apply Hl. now right.
Qed.

Section Closed.

(* a request that is no longer pending stays so, whatever happens *)
Variable a : nat.

Lemma geo_closed_close : forall c st w l,
  geo_closed a w ->
  exists g, find_geo a (close_geo c st (geos w) ++ l) = Some g /\ is_pending g = false.
Proof.
  intros c st w l [g [Hf Hp]]. exists g. split; [|exact Hp].
  apply find_geo_app. rewrite find_geo_close, Hf. simpl.
  rewrite Hp, andb_false_r. reflexivity.
Qed.

Lemma geo_closed_step : forall w ev, geo_closed a w -> geo_closed a (step w ev).
Proof.
  intros w ev Hc.
  assert (Hnil : forall c st, exists g,
             find_geo a (close_geo c st (geos w)) = Some g /\ is_pending g = false).
  { intros c st. destruct (geo_closed_close c st w [] Hc) as [g Hg].
    rewrite app_nil_r in Hg. now exists g. }
  step_cases ev; try exact Hc.
  - unfold geo_closed, selectPoint, cleaned; simpl.
    destruct (controller w) as [c|].
    + apply geo_closed_close, Hc.
    + destruct Hc as [g [Hf Hp]]. exists g. split; [|exact Hp].
      now apply find_geo_app.
  - unfold geo_closed, geocodeResolved.
    destruct (negb _ && negb _); simpl; apply Hnil.
  - unfold geo_closed, geocodeFailed; simpl. apply Hnil.
Qed.

Lemma geo_closed_run : forall evs w, geo_closed a w -> geo_closed a (run w evs).
Proof.
  induction evs as [|ev evs IH]; intros w Hc; simpl.
  - exact Hc.
  - apply IH, geo_closed_step, Hc.
Qed.

Lemma closed_ignores_response : forall w data,
  geo_closed a w -> step w (EvGeoResponse a data) = w.
Proof.
  intros w data [g [Hf Hp]]. simpl. now rewrite Hf, Hp.
Qed.

Lemma closed_ignores_failure : forall w,
  geo_closed a w -> step w (EvGeoFailure a) = w.
Proof.
  intros w [g [Hf Hp]]. simpl. now rewrite Hf, Hp.
Qed.

End Closed.

Section Invariant.

Variable w : World.
Hypothesis Hinv : world_inv w.

(* closing a request keeps the three facts about the geocode requests *)
Lemma world_inv_close : forall gid n,
  next_id w <= n ->
  (forall g, In g (close_geo gid GeoSettled (geos w)) -> geo_id g < n) /\
  NoDup (map geo_id (close_geo gid GeoSettled (geos w))) /\
  (forall g, In g (close_geo gid GeoSettled (geos w)) -> is_pending g = true ->
             controller w = Some (geo_id g)).
Proof.
  intros gid n Hle. destruct Hinv as [Hf _ Hn Hc]. repeat split.
  - intros g Hin. apply close_geo_In in Hin; [|discriminate].
    destruct Hin as [g0 [Hin0 [Hid _]]]. rewrite Hid.
    specialize (Hf g0 Hin0). lia.
  - now rewrite close_geo_ids.
  - intros g Hin Hp. apply close_geo_In in Hin; [|discriminate].
    destruct Hin as [g0 [Hin0 [_ Hsame]]].
    destruct (Hsame Hp) as [-> _]. now apply Hc.
Qed.

Lemma cleaned_ids : map geo_id (cleaned w) = map geo_id (geos w).
Proof.
  unfold cleaned. destruct (controller w); [apply close_geo_ids | reflexivity].
Qed.

Lemma cleaned_none_pending : forall g, In g (cleaned w) -> is_pending g = false.
Proof.
  intros g Hin. destruct Hinv as [_ _ _ Hc].
  destruct (is_pending g) eqn:Hp; [|reflexivity]. exfalso.
  unfold cleaned in Hin. destruct (controller w) as [c|] eqn:Hctl.
  - apply close_geo_In in Hin; [|discriminate].
    destruct Hin as [g0 [Hin0 [_ Hsame]]].
    destruct (Hsame Hp) as [-> Hne].
    specialize (Hc g0 Hin0 Hp). congruence.
  - specialize (Hc g Hin Hp). discriminate.
Qed.

Lemma cleaned_fresh : forall g, In g (cleaned w) -> geo_id g < next_id w.
Proof.
  intros g Hin. destruct Hinv as [Hf _ _ _].
  assert (Hm : In (geo_id g) (map geo_id (geos w))).
  { rewrite <- cleaned_ids. now apply in_map. }
  apply in_map_iff in Hm. destruct Hm as [g0 [<- Hin0]]. now apply Hf.
Qed.

Lemma world_inv_select : forall pos, world_inv (selectPoint pos w).
Proof.
  intros pos. pose proof Hinv as [Hf Ht Hn Hc].
  constructor; unfold selectPoint; simpl.
  - intros g Hin. apply in_app_or in Hin. destruct Hin as [Hin|[<-|[]]].
    + apply cleaned_fresh in Hin. lia.
    + simpl. lia.
  - intros t Hin. specialize (Ht t Hin). lia.
  - rewrite map_app, cleaned_ids. simpl.
    apply NoDup_app; [exact Hn | repeat constructor; intros [] |].
    intros x Hx [<-|[]]. apply in_map_iff in Hx.
    destruct Hx as [g0 [Heq Hin0]]. specialize (Hf g0 Hin0). lia.
  - intros g Hin Hp. apply in_app_or in Hin. destruct Hin as [Hin|[<-|[]]].
    + rewrite (cleaned_none_pending g Hin) in Hp. discriminate.
    + reflexivity.
Qed.

Lemma drop_timer_In : forall tid t l, In t (drop_timer tid l) -> In t l.
Proof.
  intros tid t l Hin. unfold drop_timer in Hin. now apply filter_In in Hin.
Qed.

Lemma world_inv_step : forall ev, world_inv (step w ev).
Proof.
  intros ev. pose proof Hinv as [Hf Ht Hn Hc].
  step_cases ev; try exact Hinv; try apply world_inv_select.
  - constructor; simpl; assumption.
  - constructor; simpl; auto.
    + intros g Hin. specialize (Hf g Hin). lia.
    + intros t Hin. specialize (Ht t Hin). lia.
  - constructor; simpl; auto.
    + intros g Hin. specialize (Hf g Hin). lia.
    + intros t Hin. specialize (Ht t Hin). lia.
  - unfold geocodeResolved. destruct (negb _ && negb _).
    + destruct (world_inv_close (geo_id g) (next_id w) (le_n _)) as [A [B C]].
      constructor; simpl; assumption.
    + destruct (world_inv_close (geo_id g) (S (next_id w)) (le_S _ _ (le_n _)))
        as [A [B C]].
      constructor; simpl; try assumption.
      intros t Hin. apply in_app_or in Hin. destruct Hin as [Hin|[<-|[]]].
      * specialize (Ht t Hin). lia.
      * simpl. lia.
  - destruct (world_inv_close (geo_id g) (next_id w) (le_n _)) as [A [B C]].
    constructor; simpl; assumption.
  - constructor; simpl; auto.
    + intros g Hin. specialize (Hf g Hin). lia.
    + intros x Hin. apply drop_timer_In in Hin. specialize (Ht x Hin). lia.
  - constructor; simpl; auto.
  - constructor; simpl; auto.
Qed.

End Invariant.

Lemma world_inv_reachable : forall w, reachable w -> world_inv w.
Proof.
  induction 1 as [|w ev _ IH].
  - constructor; simpl; [intros g [] | intros t [] | constructor | intros g []].
  - now apply world_inv_step.
Qed.

(* with distinct ids, pending requests that all carry the id [c] are at
   most one *)
Lemma pending_at_most_one : forall c l,
  NoDup (map geo_id l) ->
  (forall g, In g l -> is_pending g = true -> geo_id g = c) ->
  length (filter is_pending l) <= 1.
Proof.
  intros c l. induction l as [|g l IH]; intros Hn Hc; simpl; [lia|].
  inversion Hn as [|? ? Hnotin Hn']; subst.
  assert (IH' : length (filter is_pending l) <= 1).
  { apply IH; [exact Hn'|]. intros g0 Hin. apply Hc. now right. }
  destruct (is_pending g) eqn:Hp; [|exact IH'].
  rewrite filter_none; [simpl; lia|].
  intros g0 Hin0. destruct (is_pending g0) eqn:Hp0; [|reflexivity]. exfalso.
  apply Hnotin. apply in_map_iff. exists g0. split; [|exact Hin0].
  rewrite (Hc g0 (or_intror Hin0) Hp0). symmetry. apply Hc; [now left | exact Hp].
Qed.

Lemma reachable_one_pending : forall w,
  reachable w -> length (filter is_pending (geos w)) <= 1.
Proof.
  intros w Hr. destruct (world_inv_reachable w Hr) as [_ _ Hn Hc].
  destruct (controller w) as [c|] eqn:Hctl.
  - apply (pending_at_most_one c); [exact Hn|].
    intros g Hin Hp. specialize (Hc g Hin Hp). congruence.
  - apply (pending_at_most_one 0); [exact Hn|].
    intros g Hin Hp. specialize (Hc g Hin Hp). discriminate.
Qed.

(** C2.  Point A is selected and its geocode request [a] is still pending
    when point B is selected.  Then (1) the selection of B aborts [a], and
    the only pending request is the new one for B; (2) whatever happens
    afterwards, a response or a failure delivered for [a] runs no callback:
    the whole state, the form included, stays as it is; (3) at every moment
    at most one geocode request is pending. *)
Theorem superseded_geocode_is_cancelled :
  forall w a g posB,
    reachable w ->
    find_geo a (geos w) = Some g -> is_pending g = true ->
    let w' := step w (EvMapClick posB) in
    ((exists g', find_geo a (geos w') = Some g' /\ geo_status g' = GeoAborted) /\
     filter is_pending (geos w') =
       [{| geo_id := next_id w; geo_pos := posB; geo_form := form (ui w);
           geo_status := GeoPending |}]) /\
    (forall evs data,
        step (run w' evs) (EvGeoResponse a data) = run w' evs /\
        step (run w' evs) (EvGeoFailure a) = run w' evs) /\
    (forall evs, length (filter is_pending (geos (run w evs))) <= 1).
Proof.
  intros w a g posB Hr Hf Hp w'.
  pose proof (world_inv_reachable w Hr) as Hinv.
  destruct (find_geo_In _ _ _ Hf) as [Hin Hid].
  assert (Hctl : controller w = Some a).
  { rewrite <- Hid. now apply (inv_current w Hinv). }
  assert (Hfa : find_geo a (geos w') = Some (set_status GeoAborted g)).
  { unfold w'. simpl. unfold cleaned. rewrite Hctl.
    apply find_geo_app. rewrite find_geo_close, Hf. simpl.
    now rewrite Hid, Nat.eqb_refl, Hp. }
  split; [split|split].
  - exists (set_status GeoAborted g). split; [exact Hfa | reflexivity].
  - unfold w'. simpl. rewrite filter_app. simpl.
    rewrite filter_none; [reflexivity|].
    intros x Hx. now apply (cleaned_none_pending w Hinv).
  - intros evs data.
    assert (Hcl : geo_closed a (run w' evs)).
    { apply geo_closed_run. exists (set_status GeoAborted g).
      split; [exact Hfa | reflexivity]. }
    split; [now apply closed_ignores_response | now apply closed_ignores_failure].
  - intros evs. apply reachable_one_pending. now apply reachable_run.
Qed.

(* after A then B, the late answer for A changes nothing *)
Lemma superseded_geocode_witness :
  step (run init [EvMapClick pointA; EvMapClick pointB]) (EvGeoResponse 0 izmirData)
  = run init [EvMapClick pointA; EvMapClick pointB].
Proof.
  pose proof (superseded_geocode_is_cancelled
                (run init [EvMapClick pointA]) 0
                {| geo_id := 0; geo_pos := pointA; geo_form := initialForm;
                   geo_status := GeoPending |} pointB
                (reachable_run [EvMapClick pointA] init reach_init)
                eq_refl eq_refl) as H.
  exact (proj1 (proj1 (proj2 H) [] izmirData)).
Defined.

(** ** The AI request *)

Lemma ai_inv_step : forall w ev, ai_inv w -> ai_inv (step w ev).
Proof.
  intros w ev Hinv. step_cases ev; try exact Hinv.
  - match goal with H : ai_button_disabled _ = false |- _ =>
      unfold ai_button_disabled in H;
      apply orb_false_iff in H; destruct H as [H _];
      apply orb_false_iff in H; destruct H as [Hl _]
    end.
    destruct Hinv as [[_ Hnil]|[Ht _]]; [|congruence].
    right. simpl. rewrite Hnil. split; [reflexivity|]. eexists. reflexivity.
  - unfold selectPoint.
    destruct (match controller w with Some _ => _ | None => _ end); exact Hinv.
  - unfold geocodeResolved. destruct (negb _ && negb _); exact Hinv.
  - unfold recSettled, handleSubmit_settled, autoFetch_settled.
    destruct (rec_origin r), (fetchRecommendations o); exact Hinv.
  - left. destruct Hinv as [[_ Hnil]|[_ [f0 Hone]]].
    + match goal with H : find_ai _ _ = Some _ |- _ => rewrite Hnil in H end.
      discriminate.
    + unfold aiSettled, handleAIRecommendation_settled; simpl.
      split; [now destruct (fetchAIRecommendation o)|].
      match goal with H : find_ai _ _ = Some _ |- _ =>
        rewrite Hone in H; unfold find_ai in H; simpl in H;
        destruct (aif_id f0 =? aid)%nat eqn:Hid; [|discriminate];
        injection H as <-
      end.
      rewrite Hone. simpl. now rewrite Nat.eqb_refl.
Qed.

Lemma ai_inv_reachable : forall w, reachable w -> ai_inv w.
Proof.
  induction 1 as [|w ev _ IH].
  - left. split; reflexivity.
  - now apply ai_inv_step.
Qed.

Lemma fixed_fields_step : forall w ev,
  Forall fixed_fields (ai_fetches w) -> Forall fixed_fields (ai_fetches (step w ev)).
Proof.
  intros w ev H. step_cases ev; try exact H.
  - apply Forall_app. split; [exact H|]. constructor; [|constructor].
    split; reflexivity.
  - unfold geocodeResolved. destruct (negb _ && negb _); exact H.
  - unfold drop_ai. rewrite Forall_forall in *. intros x Hx.
    apply filter_In in Hx. now apply H.
Qed.

Lemma fixed_fields_reachable : forall w,
  reachable w -> Forall fixed_fields (ai_fetches w).
Proof.
  induction 1 as [|w ev _ IH]; [constructor | now apply fixed_fields_step].
Qed.

(** C3.  Whatever the form holds, the AI request that a click issues has as
    its body the current form with [top_n = 5] and [language = "tr"] added;
    and every AI request in flight, in every reachable state, carries
    these two values. *)
Theorem ai_payload_is_form_with_fixed_fields :
  forall w,
    reachable w ->
    (ai_button_disabled (ui w) = false ->
     ai_fetches (step w EvAIClick) =
       (ai_fetches w ++
        [{| aif_id := next_id w;
            aif_body := {| ai_form := form (ui w); top_n := Some 5%Z;
                           language := Some "tr" |} |}])%list) /\
    (forall f, In f (ai_fetches w) ->
               top_n (aif_body f) = Some 5%Z /\ language (aif_body f) = Some "tr").
Proof.
  intros w Hr. split.
  - intros Hd. simpl. rewrite Hd. reflexivity.
  - intros f Hin. pose proof (fixed_fields_reachable w Hr) as H.
    rewrite Forall_forall in H. exact (H f Hin).
Qed.

Lemma izmirWorld_reachable : reachable izmirWorld.
Proof. apply reachable_run. constructor. Qed.

Lemma ai_payload_witness :
  map aif_body (ai_fetches (step izmirWorld EvAIClick)) =
  [{| ai_form := {| city := "Izmir"; country := "Turkey";
                    sun_exposure := full_sun; soil_type := well_drained;
                    watering_preference := water_medium;
                    maintenance_preference := maint_low;
                    wind_exposure := exposed |};
      top_n := Some 5%Z; language := Some "tr" |}].
Proof.
  rewrite (proj1 (ai_payload_is_form_with_fixed_fields izmirWorld izmirWorld_reachable)
                 eq_refl).
  reflexivity.
Defined.

(** C5.  The AI button is disabled exactly when an AI request is in flight
    or the city is empty or the country is empty; a click on the disabled
    button issues nothing and changes nothing, and a click on the enabled
    button issues one request. *)
Theorem ai_button_gates_request :
  forall w,
    reachable w ->
    (ai_button_disabled (ui w) = true <->
       ai_fetches w <> [] \/ city (form (ui w)) = "" \/ country (form (ui w)) = "") /\
    (ai_button_disabled (ui w) = true -> step w EvAIClick = w) /\
    (ai_button_disabled (ui w) = false ->
       length (ai_fetches (step w EvAIClick)) = 1).
Proof.
  intros w Hr. pose proof (ai_inv_reachable w Hr) as Hinv.
  split; [|split].
  - unfold ai_button_disabled. rewrite !orb_true_iff, !negb_true_iff.
    rewrite !truthy_false_iff.
    destruct Hinv as [[Hl Hnil]|[Hl [f Hone]]]; rewrite Hl.
    + rewrite Hnil. intuition congruence.
    + rewrite Hone. split; [|auto]. intros _. left. discriminate.
  - intros Hd. simpl. now rewrite Hd.
  - intros Hd. simpl. rewrite Hd. simpl.
    unfold ai_button_disabled in Hd.
    apply orb_false_iff in Hd. destruct Hd as [Hd _].
    apply orb_false_iff in Hd. destruct Hd as [Hl _].
    destruct Hinv as [[_ Hnil]|[Ht _]]; [|congruence].
    rewrite Hnil. reflexivity.
Qed.

(* a second click while the first AI request is in flight does nothing *)
Lemma ai_button_witness :
  step (step izmirWorld EvAIClick) EvAIClick = step izmirWorld EvAIClick.
Proof.
  apply (proj1 (proj2 (ai_button_gates_request (step izmirWorld EvAIClick)
                         (reach_step _ _ izmirWorld_reachable)))).
  reflexivity.
Defined.

(** ** The plain recommendation request *)

Lemma request_failed_rejects : forall o : FetchOutcome RecommendationsBody,
  request_failed o -> fetchRecommendations o = None.
Proof.
  intros o [->|[status [json [-> Hst]]]]; simpl; [reflexivity|].
  unfold res_ok. destruct (200 <=? status)%Z eqn:H1; [|reflexivity].
  destruct (status <=? 299)%Z eqn:H2; [|reflexivity].
  exfalso. apply Hst. split; [now apply Z.leb_le | now apply Z.leb_le].
Qed.

(* the two copies of the settle code, in [handleSubmit] and in the timer
   callback, do the same *)
Lemma settled_same : forall o s, autoFetch_settled o s = handleSubmit_settled o s.
Proof. reflexivity. Qed.

(** C4.  When a plain recommendation request in flight (issued by the
    submit handler or by the timer after geocoding) fails, by a network
    error or a status outside 200..299, the error is set to the fixed
    message and the result list stays as it was; a 2xx answer with a body
    replaces the list by the body's results. *)
Theorem failed_request_keeps_results :
  forall w rid f,
    find_rec rid (rec_fetches w) = Some f ->
    (forall o, request_failed o ->
       error (ui (step w (EvRecSettled rid o))) =
         Some "Öneriler alınırken bir hata oluştu." /\
       results (ui (step w (EvRecSettled rid o))) = results (ui w)) /\
    (forall status data, (200 <= status <= 299)%Z ->
       results (ui (step w (EvRecSettled rid (Response status (Some data))))) =
         data_results data).
Proof.
  intros w rid f Hf. split.
  - intros o Ho. simpl. rewrite Hf. unfold recSettled. simpl.
    assert (Hk : (match rec_origin f with
                  | FromSubmit => handleSubmit_settled o
                  | FromTimer => autoFetch_settled o
                  end) (ui w) = handleSubmit_settled o (ui w))
      by now destruct (rec_origin f).
    rewrite Hk. unfold handleSubmit_settled.
    rewrite (request_failed_rejects o Ho). split; reflexivity.
  - intros status data [H1 H2]. simpl. rewrite Hf.
    unfold recSettled, handleSubmit_settled, autoFetch_settled. simpl.
    unfold res_ok.
    apply Z.leb_le in H1. apply Z.leb_le in H2. rewrite H1, H2.
    destruct (rec_origin f); reflexivity.
Qed.

(* a first request succeeded with one plant; the second one gets a 500 *)
Lemma failed_request_witness :
  error (ui (step afterFirstSuccess (EvRecSettled 1 (Response 500 None)))) =
    Some "Öneriler alınırken bir hata oluştu." /\
  results (ui (step afterFirstSuccess (EvRecSettled 1 (Response 500 None)))) = [rose].
Proof.
  refine (proj1 (failed_request_keeps_results afterFirstSuccess 1
                   {| rec_id := 1; rec_body := form (ui izmirWorld);
                      rec_origin := FromSubmit |} eq_refl)
                (Response 500 None) _).
  right. exists 500%Z, None. split; [reflexivity | lia].
Defined.

Lemma drop_rec_length : forall rid l, length (drop_rec rid l) <= length l.
Proof.
  intros rid l. unfold drop_rec. induction l as [|x l IH]; simpl; [lia|].
  destruct (negb _); simpl; lia.
Qed.

(* the steps that issue a plain request are the enabled submit and the
   firing of a pending timer, and no other *)
Lemma plain_request_issuers : forall w ev,
  issues_plain_request w ev <->
  (ev = EvSubmit /\ submit_enabled (ui w) = true) \/
  (exists tid t, ev = EvTimer tid /\ find_timer tid (timers w) = Some t).
Proof.
  intros w ev. unfold issues_plain_request. split.
  - step_cases ev; intros Hlen; simpl in Hlen; try lia.
    + now left.
    + unfold geocodeResolved in Hlen.
      destruct (negb _ && negb _); simpl in Hlen; lia.
    + right. eexists _, _. split; [reflexivity | eassumption].
    + match type of Hlen with context [drop_rec ?i ?l] =>
        pose proof (drop_rec_length i l) end.
      lia.
  - intros [[-> He]|[tid [t [-> Ht]]]]; simpl.
    + rewrite He. simpl. rewrite length_app. simpl. lia.
    + rewrite Ht. simpl. rewrite length_app. simpl. lia.
Qed.

(* only an AI answer can put an AI result on display *)
Lemma aiResult_stays_cleared : forall w ev,
  is_ai_settlement ev = false -> aiResult (ui w) = None ->
  aiResult (ui (step w ev)) = None.
Proof.
  intros w ev Hev H. revert Hev.
  step_cases ev; intros Hev; try discriminate; try exact H; try reflexivity.
  - unfold selectPoint.
    now destruct (match controller w with Some _ => _ | None => _ end).
  - unfold geocodeResolved. now destruct (negb _ && negb _).
  - unfold recSettled, handleSubmit_settled, autoFetch_settled.
    now destruct (rec_origin _), (fetchRecommendations o).
Qed.

Lemma aiResult_stays_cleared_run : forall evs w,
  forallb (fun e => negb (is_ai_settlement e)) evs = true ->
  aiResult (ui w) = None -> aiResult (ui (run w evs)) = None.
Proof.
  induction evs as [|ev evs IH]; intros w Hall H; simpl in *; [exact H|].
  apply andb_true_iff in Hall. destruct Hall as [Hev Hall].
  apply IH; [exact Hall|]. apply aiResult_stays_cleared; [|exact H].
  now apply negb_true_iff.
Qed.

(** C6.  The steps that issue a plain recommendation request, that is, the
    steps after which one more such request is in flight, are the enabled
    submit and the firing of the timer set after geocoding; every such step
    leaves no AI result in the state.  Until an AI answer is delivered the
    AI result stays cleared, so when the plain request settles no AI best
    pick from before the issuance is rendered. *)
Theorem plain_request_clears_ai_result :
  forall w ev,
    (issues_plain_request w ev <->
       (ev = EvSubmit /\ submit_enabled (ui w) = true) \/
       (exists tid t, ev = EvTimer tid /\ find_timer tid (timers w) = Some t)) /\
    (issues_plain_request w ev ->
       aiResult (ui (step w ev)) = None /\
       (forall evs rid o,
          forallb (fun e => negb (is_ai_settlement e)) evs = true ->
          renderAIBest (ui (step (run (step w ev) evs) (EvRecSettled rid o))) = None)).
Proof.
  intros w ev. split; [apply plain_request_issuers|]. intros Hiss.
  assert (Hnone : aiResult (ui (step w ev)) = None).
  { apply plain_request_issuers in Hiss.
    destruct Hiss as [[-> He]|[tid [t [-> Ht]]]]; simpl.
    - now rewrite He.
    - now rewrite Ht. }
  split; [exact Hnone|].
  intros evs rid o Hall.
  assert (H : aiResult (ui (step (run (step w ev) evs) (EvRecSettled rid o))) = None).
  { apply aiResult_stays_cleared; [reflexivity|].
    now apply aiResult_stays_cleared_run. }
  unfold renderAIBest. now rewrite H.
Qed.

(* an AI best pick is on display; a submit clears it *)
Lemma plain_request_witness :
  renderAIBest (ui afterAI) = Some ("Gül (Rosa)", "Güneşli alan için uygun.") /\
  aiResult (ui (step afterAI EvSubmit)) = None.
Proof.
  split; [reflexivity|].
  refine (proj1 (proj2 (plain_request_clears_ai_result afterAI EvSubmit) _)).
  unfold issues_plain_request. simpl. lia.
Defined.

(** ** Reverse geocoding: what a response does to the form *)

Lemma or_else_blank : forall a b, blank a -> or_else a b = b.
Proof. intros a b [->| ->]; reflexivity. Qed.

Lemma or_default_blank : forall a d, blank a -> or_default a d = d.
Proof. intros a d [->| ->]; reflexivity. Qed.

Lemma or_str_nonempty : forall a b, a <> "" -> or_str a b = a.
Proof.
  intros a b Ha. unfold or_str. apply truthy_true_iff in Ha. now rewrite Ha.
Qed.

Lemma blank_places_resolve_empty : forall a,
  blank (Address.state a) -> blank (Address.city a) ->
  blank (Address.province a) -> blank (Address.region a) ->
  resolvedProvince a = "".
Proof.
  intros a Hs Hc Hp Hr. unfold resolvedProvince.
  rewrite (or_else_blank _ _ Hs), (or_else_blank _ _ Hc), (or_else_blank _ _ Hp).
  now rewrite (or_default_blank _ _ Hr).
Qed.

Lemma address_blank_resolves_empty : forall data,
  address_blank data ->
  resolvedProvince (addressOf data) = "" /\ resolvedCountry (addressOf data) = "".
Proof.
  intros [[a|]] H; unfold address_blank, addressOf in *; simpl in *.
  - destruct H as [Hs [Hc [Hp [Hr Hk]]]]. split.
    + now apply blank_places_resolve_empty.
    + unfold resolvedCountry. now rewrite (or_default_blank _ _ Hk).
  - split; reflexivity.
Qed.

Lemma resolvedProvince_first_nonempty : forall a,
  resolvedProvince a =
  match spec_first_nonempty (placeFields a) with
  | Some s => s
  | None => ""
  end.
Proof.
  intros [st ci pr re co]. unfold resolvedProvince, placeFields; simpl.
  unfold or_else, or_default, truthy.
  destruct st as [s|]; [destruct (s =? "") eqn:Hs|];
  (destruct ci as [c|]; [destruct (c =? "") eqn:Hc|]);
  (destruct pr as [p|]; [destruct (p =? "") eqn:Hp|]);
  (destruct re as [r|]; [destruct (r =? "") eqn:Hr|]);
  simpl;
  repeat (match goal with H : (_ =? "") = _ |- _ => rewrite H end; simpl);
  reflexivity.
Qed.

Lemma spec_first_nonempty_nonempty : forall l s,
  spec_first_nonempty l = Some s -> s <> "".
Proof.
  induction l as [|[x|] l IH]; intros s H; simpl in H; [discriminate| |now apply IH].
  destruct (x =? "") eqn:Hx; [now apply IH|].
  injection H as <-. now apply String.eqb_neq.
Qed.

Section PendingResponse.

(* the response [data] arrives for the request [gid], which is pending *)
Variables (w : World) (gid : nat) (g : GeoRequest) (data : GeoData).
Hypothesis Hfind : find_geo gid (geos w) = Some g.
Hypothesis Hpending : is_pending g = true.

Let prov := resolvedProvince (addressOf data).
Let ctry := resolvedCountry (addressOf data).

Lemma geocode_runs_handler :
  step w (EvGeoResponse gid data) = geocodeResolved g data w.
Proof. simpl. now rewrite Hfind, Hpending. Qed.

(* a response that resolves a place or a country is merged into the form,
   and a timer is set that holds the form the effect closed over *)
Lemma geocode_merges :
  prov <> "" \/ ctry <> "" ->
  form (ui (step w (EvGeoResponse gid data))) = mergeLocation prov ctry (form (ui w)) /\
  timers (step w (EvGeoResponse gid data)) =
    (timers w ++ [{| timer_id := next_id w; timer_form := geo_form g;
                     timer_province := prov; timer_country := ctry |}])%list.
Proof.
  intros Hsome. rewrite geocode_runs_handler. unfold geocodeResolved.
  fold prov ctry.
  assert (Hb : negb (truthy prov) && negb (truthy ctry) = false).
  { destruct Hsome as [H|H]; apply truthy_true_iff in H; rewrite H;
      [reflexivity | apply andb_false_r]. }
  rewrite Hb. split; reflexivity.
Qed.

End PendingResponse.

(** C7.  A geocode response whose address has state, city, province,
    region and country all empty or absent sets the location error to the
    manual-entry message and leaves the form as it was, field for field;
    no follow-up request is scheduled or issued. *)
Theorem blank_address_reports_error :
  forall w gid g data,
    find_geo gid (geos w) = Some g -> is_pending g = true ->
    address_blank data ->
    locationError (ui (step w (EvGeoResponse gid data))) =
      Some "Could not detect city from this point, please type it manually." /\
    form (ui (step w (EvGeoResponse gid data))) = form (ui w) /\
    timers (step w (EvGeoResponse gid data)) = timers w /\
    rec_fetches (step w (EvGeoResponse gid data)) = rec_fetches w.
Proof.
  intros w gid g data Hf Hp Hb.
  rewrite (geocode_runs_handler w gid g data Hf Hp). unfold geocodeResolved.
  destruct (address_blank_resolves_empty data Hb) as [-> ->]. simpl.
  repeat split; reflexivity.
Qed.

(* the user typed a city, clicked the map, and the service knows no place *)
Lemma blank_address_witness :
  locationError (ui (step clickedMap (EvGeoResponse 0 blankData))) =
    Some "Could not detect city from this point, please type it manually." /\
  form (ui (step clickedMap (EvGeoResponse 0 blankData))) = form (ui clickedMap).
Proof.
  pose proof (blank_address_reports_error clickedMap 0
                {| geo_id := 0; geo_pos := pointA; geo_form := form (ui clickedMap);
                   geo_status := GeoPending |} blankData eq_refl eq_refl) as H.
  assert (Hb : address_blank blankData).
  { unfold address_blank, blank; simpl. repeat split; auto. }
  destruct (H Hb) as [H1 [H2 _]]. split; [exact H1 | exact H2].
Defined.

(** C8.  A geocode response that resolves a place or a country overwrites
    the form's city only when the resolved place is non-empty and the
    form's country only when the resolved country is non-empty; a field
    whose resolved value is empty keeps what the form held, and the five
    other fields are kept.  In particular a response with only the country
    populated sets the country and leaves the city unchanged. *)
Theorem geocode_merge_keeps_prior_entries :
  forall w gid g data,
    find_geo gid (geos w) = Some g -> is_pending g = true ->
    let prov := resolvedProvince (addressOf data) in
    let ctry := resolvedCountry (addressOf data) in
    let old := form (ui w) in
    let new := form (ui (step w (EvGeoResponse gid data))) in
    (prov <> "" \/ ctry <> "") ->
    ((prov <> "" -> city new = prov) /\ (prov = "" -> city new = city old)) /\
    ((ctry <> "" -> country new = ctry) /\ (ctry = "" -> country new = country old)) /\
    (sun_exposure new = sun_exposure old /\ soil_type new = soil_type old /\
     watering_preference new = watering_preference old /\
     maintenance_preference new = maintenance_preference old /\
     wind_exposure new = wind_exposure old) /\
    (forall a c,
       address data = Some a ->
       blank (Address.state a) -> blank (Address.city a) ->
       blank (Address.province a) -> blank (Address.region a) ->
       Address.country a = Some c -> c <> "" ->
       city new = city old /\ country new = c).
Proof.
  intros w gid g data Hf Hp prov ctry old new Hsome.
  assert (Hnew : new = mergeLocation prov ctry old).
  { exact (proj1 (geocode_merges w gid g data Hf Hp Hsome)). }
  assert (Hcity : (prov <> "" -> city new = prov) /\ (prov = "" -> city new = city old)).
  { rewrite Hnew. simpl. split; intros H.
    - now apply or_str_nonempty.
    - rewrite H. reflexivity. }
  assert (Hctry : (ctry <> "" -> country new = ctry) /\
                  (ctry = "" -> country new = country old)).
  { rewrite Hnew. simpl. split; intros H.
    - now apply or_str_nonempty.
    - rewrite H. reflexivity. }
  split; [exact Hcity|]. split; [exact Hctry|]. split.
  - rewrite Hnew. simpl. repeat split; reflexivity.
  - intros a c Ha Hs Hc Hpv Hr Hk Hne.
    assert (Hprov : prov = "").
    { unfold prov, addressOf. rewrite Ha. now apply blank_places_resolve_empty. }
    assert (Hc' : ctry = c).
    { unfold ctry, addressOf. rewrite Ha. unfold resolvedCountry. rewrite Hk.
      simpl. apply truthy_true_iff in Hne. now rewrite Hne. }
    split.
    + now apply (proj2 Hcity).
    + rewrite <- Hc'. apply (proj1 Hctry). now rewrite Hc'.
Qed.

Lemma geocode_merge_witness :
  city (form (ui (step clickedMap (EvGeoResponse 0 countryOnly)))) = "Izmir" /\
  country (form (ui (step clickedMap (EvGeoResponse 0 countryOnly)))) = "Turkey".
Proof.
  pose proof (geocode_merge_keeps_prior_entries clickedMap 0
                {| geo_id := 0; geo_pos := pointA; geo_form := form (ui clickedMap);
                   geo_status := GeoPending |} countryOnly eq_refl eq_refl) as H.
  simpl in H.
  assert (Hne : "Turkey" <> "") by discriminate.
  destruct (H (or_intror Hne)) as [_ [_ [_ Honly]]].
  apply (Honly _ "Turkey" eq_refl); simpl; unfold blank; auto.
Defined.

(** C10.  When a geocode response has a non-empty place field, the form's
    city becomes the first non-empty one among state, city, province and
    region, in this order; so a non-empty state wins over the address's
    city whenever both are present. *)
Theorem city_follows_place_priority :
  forall w gid g data a,
    find_geo gid (geos w) = Some g -> is_pending g = true ->
    address data = Some a ->
    (forall v, spec_first_nonempty (placeFields a) = Some v ->
               city (form (ui (step w (EvGeoResponse gid data)))) = v) /\
    (forall s c, Address.state a = Some s -> s <> "" -> Address.city a = Some c ->
                 city (form (ui (step w (EvGeoResponse gid data)))) = s).
Proof.
  intros w gid g data a Hf Hp Ha.
  assert (Hfirst : forall v, spec_first_nonempty (placeFields a) = Some v ->
                     city (form (ui (step w (EvGeoResponse gid data)))) = v).
  { intros v Hv.
    assert (Hprov : resolvedProvince (addressOf data) = v).
    { unfold addressOf. rewrite Ha, resolvedProvince_first_nonempty. now rewrite Hv. }
    assert (Hne : v <> "") by exact (spec_first_nonempty_nonempty _ _ Hv).
    destruct (geocode_merges w gid g data Hf Hp) as [Hform _];
      [left; now rewrite Hprov|].
    rewrite Hform, Hprov. simpl. now apply or_str_nonempty. }
  split; [exact Hfirst|].
  intros s c Hs Hne _. apply Hfirst. unfold placeFields. rewrite Hs. simpl.
  apply String.eqb_neq in Hne. now rewrite Hne.
Qed.

Lemma city_follows_place_priority_witness :
  city (form (ui (step clickedMap (EvGeoResponse 0 stateAndCity)))) = "Izmir".
Proof.
  pose proof (city_follows_place_priority clickedMap 0
                {| geo_id := 0; geo_pos := pointA; geo_form := form (ui clickedMap);
                   geo_status := GeoPending |} stateAndCity _
                eq_refl eq_refl eq_refl) as [_ H].
  apply (H "Izmir" "Bornova"); [reflexivity | discriminate | reflexivity].
Defined.

(** ** The label of the AI best pick *)

Lemma findChosen_none : forall rs b,
  (forall p, In p rs -> plant_id p <> AIChosenPlant.plant_id b) ->
  findChosen rs b = None.
Proof.
  intros rs b H. unfold findChosen.
  destruct (find _ rs) as [p|] eqn:Hf; [|reflexivity]. exfalso.
  apply find_some in Hf. destruct Hf as [Hin Heq].
  apply Z.eqb_eq in Heq. exact (H p Hin Heq).
Qed.

(** C9.  When the AI answer on display has a best pick whose plant id is
    the id of no plant in the displayed result list, the best-pick block is
    still rendered, with the label "Bilinmeyen bitki" (unknown plant) and
    the pick's reasoning. *)
Theorem unmatched_best_pick_gets_fallback_label :
  forall s r b,
    aiResult s = Some r -> ai_best r = Some b ->
    (forall p, In p (results s) -> plant_id p <> AIChosenPlant.plant_id b) ->
    renderAIBest s = Some ("Bilinmeyen bitki", AIChosenPlant.reasoning b).
Proof.
  intros s r b Hr Hb Hno. unfold renderAIBest, chosenLabel.
  rewrite Hr, Hb. now rewrite (findChosen_none _ _ Hno).
Qed.

Lemma unmatched_best_pick_witness :
  renderAIBest (ui afterStrayAI) = Some ("Bilinmeyen bitki", "Kuraklığa dayanıklı.").
Proof.
  apply (unmatched_best_pick_gets_fallback_label (ui afterStrayAI) strayAnswer strayPick
           eq_refl eq_refl).
  intros p [<-|[]]. discriminate.
Defined.

(** ** The request the timer issues after geocoding *)

(* The body of the auto-issued request is built from the form the effect
   closed over when the point was selected, not from the form on display
   when the timer fires. *)
Lemma timer_body_from_click_form : forall w tid t,
  find_timer tid (timers w) = Some t ->
  rec_fetches (step w (EvTimer tid)) =
  (rec_fetches w ++
   [{| rec_id := next_id w;
       rec_body := mergeLocation (timer_province t) (timer_country t) (timer_form t);
       rec_origin := FromTimer |}])%list.
Proof.
  intros w tid t Ht. simpl. rewrite Ht. reflexivity.
Qed.

(** X18.  When nothing happens between the map click, the response and the
    firing of the timer, the body of the auto-issued request is the form on
    display at the moment of dispatch. *)
Lemma auto_fetch_body_without_edits : forall w pos data,
  reachable w ->
  resolvedProvince (addressOf data) <> "" \/ resolvedCountry (addressOf data) <> "" ->
  let n := next_id w in
  let w3 := run w [EvMapClick pos; EvGeoResponse n data; EvTimer (S n)] in
  rec_fetches w3 =
  (rec_fetches w ++
   [{| rec_id := S (S n); rec_body := form (ui w3); rec_origin := FromTimer |}])%list.
Proof.
  intros w pos data Hr Hsome n w3.
  pose proof (world_inv_reachable w Hr) as Hinv.
  set (new := {| geo_id := n; geo_pos := pos; geo_form := form (ui w);
                 geo_status := GeoPending |}).
  set (w1 := step w (EvMapClick pos)).
  assert (Hfind : find_geo n (geos w1) = Some new).
  { unfold w1. simpl. apply find_geo_fresh; [|reflexivity].
    intros x Hx. now apply (cleaned_fresh w Hinv). }
  destruct (geocode_merges w1 n new data Hfind eq_refl Hsome) as [Hform Htimers].
  set (w2 := step w1 (EvGeoResponse n data)) in *.
  set (t := {| timer_id := next_id w1; timer_form := geo_form new;
               timer_province := resolvedProvince (addressOf data);
               timer_country := resolvedCountry (addressOf data) |}) in *.
  assert (Hnext : next_id w2 = S (S n)).
  { unfold w2. rewrite (geocode_runs_handler w1 n new data Hfind eq_refl).
    unfold geocodeResolved.
    assert (Hb : negb (truthy (resolvedProvince (addressOf data))) &&
                 negb (truthy (resolvedCountry (addressOf data))) = false).
    { destruct Hsome as [H|H]; apply truthy_true_iff in H; rewrite H;
        [reflexivity | apply andb_false_r]. }
    rewrite Hb. reflexivity. }
  assert (Hrec2 : rec_fetches w2 = rec_fetches w).
  { unfold w2. rewrite (geocode_runs_handler w1 n new data Hfind eq_refl).
    unfold geocodeResolved. now destruct (negb _ && negb _). }
  assert (Ht : find_timer (S n) (timers w2) = Some t).
  { rewrite Htimers. apply find_timer_fresh; [|reflexivity].
    intros x Hx. pose proof (inv_timer_fresh w Hinv x Hx). unfold n. lia. }
  assert (H3 : w3 = step w2 (EvTimer (S n))) by reflexivity.
  rewrite H3, (timer_body_from_click_form w2 (S n) t Ht), Hrec2, Hnext.
  assert (Hform1 : form (ui w1) = form (ui w)).
  { unfold w1. simpl. unfold selectPoint.
    now destruct (match controller w with Some _ => _ | None => _ end). }
  simpl. rewrite Ht. simpl. rewrite Hform, Hform1. reflexivity.
Qed.

(** C1.  On the trace [editDuringGeocode] the form after the merge, which
    is also the form on display when the request is dispatched, has city
    "Ankara" and country "Turkey", while the body of the request the timer
    dispatches has the empty city: the body is not the form state after the
    merge, and the displayed city and the body's city disagree. *)
Theorem auto_fetch_body_is_stale :
  let merged := run init [EvMapClick pointA; EvChange (ChangeCity "Ankara");
                          EvGeoResponse 0 countryOnly] in
  let dispatched := run init editDuringGeocode in
  city (form (ui merged)) = "Ankara" /\ country (form (ui merged)) = "Turkey" /\
  form (ui dispatched) = form (ui merged) /\
  map rec_body (rec_fetches dispatched) = [withLocation initialForm "" "Turkey"] /\
  (forall f, In f (rec_fetches dispatched) ->
             rec_body f <> form (ui merged) /\
             city (rec_body f) <> city (form (ui dispatched))).
Proof.
  cbv zeta. split; [reflexivity|]. split; [reflexivity|].
  split; [reflexivity|]. split; [reflexivity|].
  intros f [<-|[]]. split; discriminate.
Qed.

(** * Further properties of the component *)

(** ** [handleChange] *)

(** X1.  An edit of a control writes the control's value under the
    control's name: that field of the form reads back the new value, every
    other field reads as before, and nothing but the form changes (putting
    the old form back gives the old state, requests and timers included). *)
Theorem change_updates_one_field :
  forall w c,
    readField (changeName c) (form (ui (step w (EvChange c)))) = Some (changeValue c) /\
    (forall name, name <> changeName c ->
       readField name (form (ui (step w (EvChange c)))) = readField name (form (ui w))) /\
    with_ui (setForm (fun _ => form (ui w))) (step w (EvChange c)) = w.
Proof.
  intros w c. split; [|split].
  - destruct c; reflexivity.
  - intros name Hne. simpl. unfold readField.
    destruct c; simpl in *;
      repeat match goal with
        | |- context [if (name =? ?k) then _ else _] =>
            let E := fresh "E" in
            destruct (name =? k) eqn:E;
            [ apply String.eqb_eq in E; try congruence; try reflexivity | ]
        end; reflexivity.
  - destruct w as [[] ? ? ? ? ? ?]. reflexivity.
Qed.

Lemma change_updates_one_field_witness :
  readField "city" (form (ui (step izmirWorld (EvChange (ChangeSoilType clay))))) =
    Some (TextValue "Izmir") /\
  readField "soil_type" (form (ui (step izmirWorld (EvChange (ChangeSoilType clay))))) =
    Some (SoilValue clay).
Proof.
  destruct (change_updates_one_field izmirWorld (ChangeSoilType clay)) as [H1 [H2 _]].
  split; [|exact H1].
  rewrite (H2 "city"); [reflexivity | discriminate].
Defined.

(** X2.  Two consecutive edits of different controls can be swapped, and of
    two consecutive edits of the same control only the second counts. *)
Theorem changes_commute_or_overwrite :
  forall w c1 c2,
    (changeName c1 <> changeName c2 ->
       run w [EvChange c1; EvChange c2] = run w [EvChange c2; EvChange c1]) /\
    (changeName c1 = changeName c2 ->
       run w [EvChange c1; EvChange c2] = run w [EvChange c2]).
Proof.
  intros w c1 c2. split; intros H;
    destruct c1, c2; simpl in H; try congruence; try discriminate; reflexivity.
Qed.

Lemma changes_commute_witness :
  run init [EvChange (ChangeCity "Izmir"); EvChange (ChangeCountry "Turkey")] =
  run init [EvChange (ChangeCountry "Turkey"); EvChange (ChangeCity "Izmir")] /\
  run init [EvChange (ChangeCity "Izmi"); EvChange (ChangeCity "Izmir")] =
  run init [EvChange (ChangeCity "Izmir")].
Proof.
  split.
  - apply (proj1 (changes_commute_or_overwrite init (ChangeCity "Izmir")
                    (ChangeCountry "Turkey"))). discriminate.
  - apply (proj2 (changes_commute_or_overwrite init (ChangeCity "Izmi")
                    (ChangeCity "Izmir"))). reflexivity.
Defined.

(** ** Requests in flight: what they carry *)

Lemma or_str_some : forall p c a b,
  p <> "" \/ c <> "" -> or_str p a <> "" \/ or_str c b <> "".
Proof.
  intros p c a b [H|H]; [left|right]; now rewrite or_str_nonempty.
Qed.

Lemma not_both_empty : forall p c,
  negb (truthy p) && negb (truthy c) = false -> p <> "" \/ c <> "".
Proof.
  intros p c H. apply andb_false_iff in H.
  destruct H as [H|H]; apply negb_false_iff, truthy_true_iff in H; auto.
Qed.

Lemma find_timer_In : forall tid l t,
  find_timer tid l = Some t -> In t l /\ timer_id t = tid.
Proof.
  intros tid l t H. unfold find_timer in H. apply find_some in H.
  destruct H as [Hin Hid]. split; [exact Hin | now apply Nat.eqb_eq].
Qed.

Lemma find_rec_In : forall rid l f,
  find_rec rid l = Some f -> In f l /\ rec_id f = rid.
Proof.
  intros rid l f H. unfold find_rec in H. apply find_some in H.
  destruct H as [Hin Hid]. split; [exact Hin | now apply Nat.eqb_eq].
Qed.

Lemma find_ai_In : forall aid l f,
  find_ai aid l = Some f -> In f l /\ aif_id f = aid.
Proof.
  intros aid l f H. unfold find_ai in H. apply find_some in H.
  destruct H as [Hin Hid]. split; [exact Hin | now apply Nat.eqb_eq].
Qed.

Lemma drop_rec_In : forall rid f l, In f (drop_rec rid l) -> In f l.
Proof.
  intros rid f l H. unfold drop_rec in H. now apply filter_In in H.
Qed.

Lemma drop_ai_In : forall aid f l, In f (drop_ai aid l) -> In f l.
Proof.
  intros aid f l H. unfold drop_ai in H. now apply filter_In in H.
Qed.

Lemma request_inv_step : forall w ev, request_inv w -> request_inv (step w ev).
Proof.
  intros w ev Hinv. pose proof Hinv as [Hrf Haf Hts Hsub Htim Hai].
  destruct ev as [c| | |pos|gid data|gid|tid|rid o|aid o]; simpl.
  - constructor; simpl; assumption.
  - destruct (submit_enabled (ui w)) eqn:He; [|exact Hinv].
    unfold submit_enabled in He.
    apply andb_true_iff in He. destruct He as [He Hk].
    apply andb_true_iff in He. destruct He as [_ Hc].
    apply truthy_true_iff in Hc. apply truthy_true_iff in Hk.
    constructor; simpl; auto.
    + intros f Hin. apply in_app_or in Hin. destruct Hin as [Hin|[<-|[]]].
      * specialize (Hrf f Hin). lia.
      * simpl. lia.
    + intros f Hin. specialize (Haf f Hin). lia.
    + intros f Hin Ho. apply in_app_or in Hin. destruct Hin as [Hin|[<-|[]]].
      * now apply Hsub.
      * split; assumption.
    + intros f Hin Ho. apply in_app_or in Hin. destruct Hin as [Hin|[<-|[]]].
      * now apply Htim.
      * discriminate.
  - destruct (ai_button_disabled (ui w)) eqn:He; [exact Hinv|].
    unfold ai_button_disabled in He.
    apply orb_false_iff in He. destruct He as [He Hk].
    apply orb_false_iff in He. destruct He as [_ Hc].
    apply negb_false_iff, truthy_true_iff in Hc.
    apply negb_false_iff, truthy_true_iff in Hk.
    constructor; simpl; auto.
    + intros f Hin. specialize (Hrf f Hin). lia.
    + intros f Hin. apply in_app_or in Hin. destruct Hin as [Hin|[<-|[]]].
      * specialize (Haf f Hin). lia.
      * simpl. lia.
    + intros f Hin. apply in_app_or in Hin. destruct Hin as [Hin|[<-|[]]].
      * now apply Hai.
      * split; assumption.
  - constructor; unfold selectPoint; simpl; auto.
    + intros f Hin. specialize (Hrf f Hin). lia.
    + intros f Hin. specialize (Haf f Hin). lia.
  - destruct (find_geo gid (geos w)) as [g|]; [|exact Hinv].
    destruct (is_pending g); [|exact Hinv].
    unfold geocodeResolved. destruct (negb _ && negb _) eqn:Hb.
    + constructor; simpl; assumption.
    + apply not_both_empty in Hb.
      constructor; simpl; auto.
      * intros f Hin. specialize (Hrf f Hin). lia.
      * intros f Hin. specialize (Haf f Hin). lia.
      * intros t Hin. apply in_app_or in Hin. destruct Hin as [Hin|[<-|[]]].
        -- now apply Hts.
        -- exact Hb.
  - destruct (find_geo gid (geos w)) as [g|]; [|exact Hinv].
    destruct (is_pending g); [|exact Hinv].
    constructor; simpl; assumption.
  - destruct (find_timer tid (timers w)) as [t|] eqn:Ht; [|exact Hinv].
    apply find_timer_In in Ht. destruct Ht as [Hin _].
    constructor; simpl; auto.
    + intros f Hf. apply in_app_or in Hf. destruct Hf as [Hf|[<-|[]]].
      * specialize (Hrf f Hf). lia.
      * simpl. lia.
    + intros f Hf. specialize (Haf f Hf). lia.
    + intros x Hx. apply drop_timer_In in Hx. now apply Hts.
    + intros f Hf Ho. apply in_app_or in Hf. destruct Hf as [Hf|[<-|[]]].
      * now apply Hsub.
      * discriminate.
    + intros f Hf Ho. apply in_app_or in Hf. destruct Hf as [Hf|[<-|[]]].
      * now apply Htim.
      * simpl. apply or_str_some. now apply Hts.
  - destruct (find_rec rid (rec_fetches w)) as [f0|]; [|exact Hinv].
    constructor; simpl; auto.
    + intros f Hf. apply drop_rec_In in Hf. now apply Hrf.
    + intros f Hf. apply drop_rec_In in Hf. now apply Hsub.
    + intros f Hf. apply drop_rec_In in Hf. now apply Htim.
  - destruct (find_ai aid (ai_fetches w)) as [f0|]; [|exact Hinv].
    constructor; simpl; auto.
    + intros f Hf. apply drop_ai_In in Hf. now apply Haf.
    + intros f Hf. apply drop_ai_In in Hf. now apply Hai.
Qed.

Lemma request_inv_reachable : forall w, reachable w -> request_inv w.
Proof.
  induction 1 as [|w ev _ IH].
  - constructor; simpl; intros ? [].
  - now apply request_inv_step.
Qed.

Lemma overlapped_reachable : reachable overlapped.
Proof. apply reachable_run, izmirWorld_reachable. Qed.

(** X3.  Every request in flight that the submit handler issued, and every
    AI request in flight, names a city and a country: the [required] inputs
    and the AI button's [disabled] guard see to it. *)
Theorem submitted_bodies_are_located :
  forall w,
    reachable w ->
    (forall f, In f (rec_fetches w) -> rec_origin f = FromSubmit ->
               city (rec_body f) <> "" /\ country (rec_body f) <> "") /\
    (forall f, In f (ai_fetches w) ->
               city (ai_form (aif_body f)) <> "" /\
               country (ai_form (aif_body f)) <> "").
Proof.
  intros w Hr. destruct (request_inv_reachable w Hr) as [_ _ _ Hsub _ Hai].
  split; [exact Hsub | exact Hai].
Qed.

Lemma submitted_bodies_witness :
  city (form (ui izmirWorld)) <> "" /\ country (form (ui izmirWorld)) <> "".
Proof.
  apply (proj1 (submitted_bodies_are_located afterFirstSuccess
                  (reachable_run _ _ izmirWorld_reachable))
               {| rec_id := 1; rec_body := form (ui izmirWorld);
                  rec_origin := FromSubmit |}).
  - now left.
  - reflexivity.
Defined.

(** X4.  A request in flight that the timer issued after geocoding names a
    city or a country, but not always both: the timer is only set when the
    service resolved one of the two, and the other one is taken from the
    form as it was when the point was selected, where it can be empty. *)
Theorem auto_fetch_bodies_name_a_place :
  (forall w, reachable w ->
     forall f, In f (rec_fetches w) -> rec_origin f = FromTimer ->
               city (rec_body f) <> "" \/ country (rec_body f) <> "") /\
  (exists w f, reachable w /\ In f (rec_fetches w) /\ rec_origin f = FromTimer /\
               city (rec_body f) = "").
Proof.
  split.
  - intros w Hr. destruct (request_inv_reachable w Hr) as [_ _ _ _ Htim _].
    exact Htim.
  - exists (run init editDuringGeocode).
    exists {| rec_id := 2; rec_body := withLocation initialForm "" "Turkey";
              rec_origin := FromTimer |}.
    split; [apply reachable_run; constructor|].
    split; [now left|]. split; reflexivity.
Qed.

Lemma auto_fetch_bodies_witness :
  city (withLocation initialForm "" "Turkey") <> "" \/
  country (withLocation initialForm "" "Turkey") <> "".
Proof.
  apply (proj1 auto_fetch_bodies_name_a_place (run init editDuringGeocode)
               (reachable_run _ _ reach_init)
               {| rec_id := 2; rec_body := withLocation initialForm "" "Turkey";
                  rec_origin := FromTimer |}).
  - now left.
  - reflexivity.
Defined.

(** ** The loading flags and the location error *)

Lemma find_geo_self : forall l g,
  NoDup (map geo_id l) -> In g l -> find_geo (geo_id g) l = Some g.
Proof.
  intros l g. unfold find_geo. induction l as [|x l IH]; intros Hn Hin; [destruct Hin|].
  simpl. inversion Hn as [|? ? Hnotin Hn']; subst.
  destruct Hin as [->|Hin].
  - now rewrite Nat.eqb_refl.
  - destruct (geo_id x =? geo_id g)%nat eqn:E.
    + exfalso. apply Nat.eqb_eq in E. apply Hnotin. rewrite E. now apply in_map.
    + now apply IH.
Qed.

(* once the pending request is settled, none is pending *)
Lemma settled_none_pending : forall w gid g,
  world_inv w -> find_geo gid (geos w) = Some g -> is_pending g = true ->
  forall x, In x (close_geo (geo_id g) GeoSettled (geos w)) -> is_pending x = false.
Proof.
  intros w gid g Hinv Hf Hp x Hx.
  destruct (is_pending x) eqn:Hpx; [|reflexivity]. exfalso.
  apply close_geo_In in Hx; [|discriminate].
  destruct Hx as [x0 [Hin0 [_ Hsame]]]. destruct (Hsame Hpx) as [-> Hne].
  apply find_geo_In in Hf. destruct Hf as [Hin _].
  pose proof (inv_current w Hinv g Hin Hp) as H1.
  pose proof (inv_current w Hinv x0 Hin0 Hpx) as H2.
  congruence.
Qed.

(* the cleanup aborts a request exactly when one is pending *)
Lemma aborts_iff_geocoding : forall w,
  world_inv w ->
  (match controller w with
   | Some c => match find_geo c (geos w) with
               | Some g => is_pending g
               | None => false
               end
   | None => false
   end = true <-> geocoding w).
Proof.
  intros w Hinv. split.
  - destruct (controller w) as [c|]; [|discriminate].
    destruct (find_geo c (geos w)) as [g|] eqn:Hf; [|discriminate].
    intros Hp. exists g. split; [|exact Hp]. now apply find_geo_In in Hf.
  - intros [g [Hin Hp]].
    rewrite (inv_current w Hinv g Hin Hp).
    now rewrite (find_geo_self _ _ (inv_nodup w Hinv) Hin).
Qed.

Lemma flag_inv_step : forall w ev, world_inv w -> flag_inv w -> flag_inv (step w ev).
Proof.
  intros w ev Hw Hinv. pose proof Hinv as [Hl Hg He].
  assert (Hgrow : forall (l : list RecFetch) x, (l ++ [x])%list <> []).
  { intros l x H. apply app_eq_nil in H. destruct H; discriminate. }
  destruct ev as [c| | |pos|gid data|gid|tid|rid o|aid o]; simpl.
  - constructor; simpl; assumption.
  - destruct (submit_enabled (ui w)); [|exact Hinv].
    constructor; simpl; auto.
  - destruct (ai_button_disabled (ui w)); [exact Hinv|].
    constructor; simpl; auto.
  - assert (Hnew : geocoding (selectPoint pos w)).
    { exists {| geo_id := next_id w; geo_pos := pos; geo_form := form (ui w);
                geo_status := GeoPending |}.
      split; [|reflexivity]. unfold selectPoint; simpl.
      apply in_or_app. right. now left. }
    constructor.
    + unfold selectPoint; simpl.
      now destruct (match controller w with Some _ => _ | None => _ end).
    + intros _. exact Hnew.
    + intros _. unfold selectPoint; simpl.
      now destruct (match controller w with Some _ => _ | None => _ end).
  - destruct (find_geo gid (geos w)) as [g|] eqn:Hf; [|exact Hinv].
    destruct (is_pending g) eqn:Hp; [|exact Hinv].
    pose proof (settled_none_pending w gid g Hw Hf Hp) as Hnone.
    unfold geocodeResolved. destruct (negb _ && negb _);
      (constructor; simpl; [exact Hl | discriminate |];
       intros [x [Hx Hpx]]; simpl in Hx; rewrite (Hnone x Hx) in Hpx; discriminate).
  - destruct (find_geo gid (geos w)) as [g|] eqn:Hf; [|exact Hinv].
    destruct (is_pending g) eqn:Hp; [|exact Hinv].
    pose proof (settled_none_pending w gid g Hw Hf Hp) as Hnone.
    constructor; simpl; [exact Hl | discriminate |].
    intros [x [Hx Hpx]]; simpl in Hx; rewrite (Hnone x Hx) in Hpx; discriminate.
  - destruct (find_timer tid (timers w)); [|exact Hinv].
    constructor; simpl; auto.
  - destruct (find_rec rid (rec_fetches w)) as [f|]; [|exact Hinv].
    constructor.
    + unfold recSettled, handleSubmit_settled, autoFetch_settled; simpl.
      destruct (rec_origin f), (fetchRecommendations o); discriminate.
    + unfold recSettled, handleSubmit_settled, autoFetch_settled; simpl.
      destruct (rec_origin f), (fetchRecommendations o); exact Hg.
    + unfold recSettled, handleSubmit_settled, autoFetch_settled; simpl.
      destruct (rec_origin f), (fetchRecommendations o); exact He.
  - destruct (find_ai aid (ai_fetches w)) as [f|]; [|exact Hinv].
    constructor; unfold aiSettled, handleAIRecommendation_settled; simpl;
      destruct (fetchAIRecommendation o); assumption.
Qed.

Lemma flag_inv_reachable : forall w, reachable w -> flag_inv w.
Proof.
  induction 1 as [|w ev Hr IH].
  - constructor; simpl; [discriminate | discriminate | reflexivity].
  - apply flag_inv_step; [now apply world_inv_reachable | exact IH].
Qed.

(** X5.  Whenever the submit button shows "loading", a plain recommendation
    request is in flight.  The converse fails: when a submit and an
    auto-fetch overlap, the first to settle clears the flag while the other
    is still in flight. *)
Theorem loading_means_in_flight :
  (forall w, reachable w -> loading (ui w) = true -> rec_fetches w <> []) /\
  (reachable overlapped /\ loading (ui overlapped) = false /\
   map rec_id (rec_fetches overlapped) = [2]).
Proof.
  split.
  - intros w Hr. exact (finv_loading w (flag_inv_reachable w Hr)).
  - split; [exact overlapped_reachable | split; reflexivity].
Qed.

Lemma loading_witness :
  loading (ui (step izmirWorld EvSubmit)) = true /\
  rec_fetches (step izmirWorld EvSubmit) <> [].
Proof.
  split; [reflexivity|].
  apply (proj1 loading_means_in_flight (step izmirWorld EvSubmit)
               (reach_step _ _ izmirWorld_reachable)).
  reflexivity.
Defined.

(** X6.  While a geocode request is pending no location error is on
    display; and when a response resolves a place or a country, no location
    error is on display afterwards, the "detecting" indicator is off and no
    geocode request is pending. *)
Theorem resolution_shows_no_error :
  forall w,
    reachable w ->
    (geocoding w -> locationErrorText (ui w) = None) /\
    (forall gid g data,
       find_geo gid (geos w) = Some g -> is_pending g = true ->
       resolvedProvince (addressOf data) <> "" \/ resolvedCountry (addressOf data) <> "" ->
       locationErrorText (ui (step w (EvGeoResponse gid data))) = None /\
       detectingBanner (ui (step w (EvGeoResponse gid data))) = false /\
       ~ geocoding (step w (EvGeoResponse gid data))).
Proof.
  intros w Hr. pose proof (flag_inv_reachable w Hr) as [_ _ He].
  pose proof (world_inv_reachable w Hr) as Hw.
  split.
  - intros Hg. unfold locationErrorText. now rewrite (He Hg).
  - intros gid g data Hf Hp Hsome.
    assert (Hg : geocoding w).
    { exists g. split; [|exact Hp]. now apply find_geo_In in Hf. }
    pose proof (settled_none_pending w gid g Hw Hf Hp) as Hnone.
    rewrite (geocode_runs_handler w gid g data Hf Hp). unfold geocodeResolved.
    assert (Hb : negb (truthy (resolvedProvince (addressOf data))) &&
                 negb (truthy (resolvedCountry (addressOf data))) = false).
    { destruct Hsome as [H|H]; apply truthy_true_iff in H; rewrite H;
        [reflexivity | apply andb_false_r]. }
    rewrite Hb. unfold locationErrorText, detectingBanner; simpl.
    rewrite (He Hg). split; [reflexivity|]. split; [reflexivity|].
    intros [x [Hx Hpx]]. simpl in Hx. rewrite (Hnone x Hx) in Hpx. discriminate.
Qed.

Lemma clickedMap_reachable : reachable clickedMap.
Proof. apply reachable_run. constructor. Qed.

Lemma resolution_witness :
  locationErrorText (ui (step clickedMap (EvGeoResponse 0 izmirData))) = None.
Proof.
  refine (proj1 (proj2 (resolution_shows_no_error clickedMap clickedMap_reachable)
                   0 {| geo_id := 0; geo_pos := pointA;
                        geo_form := form (ui clickedMap);
                        geo_status := GeoPending |} izmirData eq_refl eq_refl _)).
  left. discriminate.
Defined.

(** X7.  The "detecting" indicator under the map is on only while a geocode
    request is pending.  A map click turns it on when no request is pending;
    a map click made while the previous request is still pending leaves it
    off although the new request is pending, because the aborted request's
    [finally] clears the flag after the new effect has set it. *)
Theorem detecting_indicator :
  forall w,
    reachable w ->
    (detectingBanner (ui w) = true -> geocoding w) /\
    (forall pos,
       geocoding (step w (EvMapClick pos)) /\
       (geocoding w -> detectingBanner (ui (step w (EvMapClick pos))) = false) /\
       (~ geocoding w -> detectingBanner (ui (step w (EvMapClick pos))) = true)).
Proof.
  intros w Hr. pose proof (flag_inv_reachable w Hr) as [_ Hg _].
  pose proof (world_inv_reachable w Hr) as Hw.
  pose proof (aborts_iff_geocoding w Hw) as Hab.
  split; [exact Hg|]. intros pos. split; [|split].
  - exists {| geo_id := next_id w; geo_pos := pos; geo_form := form (ui w);
              geo_status := GeoPending |}.
    split; [|reflexivity]. simpl. apply in_or_app. right. now left.
  - intros Hgeo. apply Hab in Hgeo. unfold detectingBanner. simpl.
    unfold selectPoint. now rewrite Hgeo.
  - intros Hno. unfold detectingBanner. simpl. unfold selectPoint.
    destruct (match controller w with Some _ => _ | None => _ end) eqn:E;
      [|reflexivity].
    exfalso. apply Hno. now apply Hab.
Qed.

Lemma detecting_indicator_witness :
  detectingBanner (ui twoClicks) = false /\ geocoding twoClicks.
Proof.
  pose proof (detecting_indicator (run init [EvMapClick pointA])
                (reachable_run _ _ reach_init)) as [_ H].
  destruct (H pointB) as [Hg [Hoff _]].
  split; [|exact Hg].
  apply Hoff.
  exists {| geo_id := 0; geo_pos := pointA; geo_form := initialForm;
            geo_status := GeoPending |}.
  split; [now left | reflexivity].
Defined.

(** ** Reverse geocoding: failure, and the marker *)

(** X8.  When the geocode request fails for a reason other than an abort
    (no connection, or a body that does not parse), the location error is
    the "could not reach" message, the "detecting" indicator goes off, the
    form is left as it was and no follow-up request is scheduled or
    issued. *)
Theorem geocode_failure_reports_unreachable :
  forall w gid g,
    find_geo gid (geos w) = Some g -> is_pending g = true ->
    locationErrorText (ui (step w (EvGeoFailure gid))) =
      Some "Could not reach location service. Please type city manually." /\
    detectingBanner (ui (step w (EvGeoFailure gid))) = false /\
    form (ui (step w (EvGeoFailure gid))) = form (ui w) /\
    timers (step w (EvGeoFailure gid)) = timers w /\
    rec_fetches (step w (EvGeoFailure gid)) = rec_fetches w.
Proof.
  intros w gid g Hf Hp. simpl. rewrite Hf, Hp. repeat split; reflexivity.
Qed.

Lemma geocode_failure_witness :
  locationErrorText (ui (step clickedMap (EvGeoFailure 0))) =
    Some "Could not reach location service. Please type city manually." /\
  city (form (ui (step clickedMap (EvGeoFailure 0)))) = "Izmir".
Proof.
  destruct (geocode_failure_reports_unreachable clickedMap 0
              {| geo_id := 0; geo_pos := pointA; geo_form := form (ui clickedMap);
                 geo_status := GeoPending |} eq_refl eq_refl) as [H1 [_ [H3 _]]].
  split; [exact H1|]. now rewrite H3.
Defined.

Lemma step_selectedPosition : forall w ev,
  selectedPosition (ui (step w ev)) =
  match ev with
  | EvMapClick pos => Some pos
  | _ => selectedPosition (ui w)
  end.
Proof.
  intros w ev. step_cases ev; try reflexivity.
  - unfold selectPoint.
    now destruct (match controller w with Some _ => _ | None => _ end).
  - unfold geocodeResolved. now destruct (negb _ && negb _).
  - unfold recSettled, handleSubmit_settled, autoFetch_settled.
    now destruct (rec_origin _), (fetchRecommendations o).
  - unfold aiSettled, handleAIRecommendation_settled.
    now destruct (fetchAIRecommendation o).
Qed.

Lemma lastClick_some : forall evs p, lastClick evs (Some p) <> None.
Proof.
  unfold lastClick. induction evs as [|ev evs IH]; intros p; simpl; [discriminate|].
  destruct ev; apply IH.
Qed.

(** X9.  The marker on the map stands at the point of the last map click,
    whatever else happened since; before the first click there is no
    marker, and once there is one it never disappears. *)
Theorem marker_follows_last_click :
  forall evs w,
    renderMarker (ui (run w evs)) = lastClick evs (renderMarker (ui w)) /\
    (renderMarker (ui w) <> None -> renderMarker (ui (run w evs)) <> None) /\
    (forallb (fun e => negb (is_map_click e)) evs = true ->
     renderMarker (ui (run w evs)) = renderMarker (ui w)).
Proof.
  unfold renderMarker.
  assert (H : forall evs w,
             selectedPosition (ui (run w evs)) = lastClick evs (selectedPosition (ui w))).
  { induction evs as [|ev evs IH]; intros w; simpl; [reflexivity|].
    rewrite IH, step_selectedPosition. unfold lastClick. simpl.
    now destruct ev. }
  intros evs w. split; [apply H|]. split.
  - intros Hs. rewrite H. destruct (selectedPosition (ui w)) as [p|]; [|congruence].
    apply lastClick_some.
  - rewrite H. generalize (selectedPosition (ui w)).
    unfold lastClick. induction evs as [|ev evs IH]; intros d Hall; simpl in *;
      [reflexivity|].
    apply andb_true_iff in Hall. destruct Hall as [Hev Hall].
    destruct ev; simpl in Hev; try discriminate; now apply IH.
Qed.

Lemma marker_witness :
  renderMarker (ui (run twoClicks [EvChange (ChangeCity "Izmir"); EvSubmit])) =
  Some pointB.
Proof.
  rewrite (proj2 (proj2 (marker_follows_last_click
                           [EvChange (ChangeCity "Izmir"); EvSubmit] twoClicks)) eq_refl).
  reflexivity.
Defined.

(** ** Nothing but its own outcome removes a request or a timer *)

(** X10.  A plain request in flight, a pending timer and an AI request in
    flight each stay until their own outcome is delivered (or the timer
    fires): no other event, a new map click included, cancels them. *)
Theorem nothing_is_cancelled :
  forall w ev,
    (forall f, In f (rec_fetches w) -> settles_rec (rec_id f) ev = false ->
               In f (rec_fetches (step w ev))) /\
    (forall t, In t (timers w) -> fires_timer (timer_id t) ev = false ->
               In t (timers (step w ev))) /\
    (forall f, In f (ai_fetches w) -> settles_ai (aif_id f) ev = false ->
               In f (ai_fetches (step w ev))).
Proof.
  intros w ev. split; [|split].
  - intros f Hin Hev. revert Hev. step_cases ev; intros Hev; try exact Hin;
      try (apply in_or_app; now left).
    + unfold geocodeResolved. now destruct (negb _ && negb _).
    + match goal with H : find_rec _ _ = Some ?r |- _ =>
        apply find_rec_In in H; destruct H as [_ Hid] end.
      unfold drop_rec. apply filter_In. split; [exact Hin|].
      rewrite Hid. apply negb_true_iff.
      rewrite Nat.eqb_sym. exact Hev.
  - intros t Hin Hev. revert Hev. step_cases ev; intros Hev; try exact Hin.
    + unfold geocodeResolved. destruct (negb _ && negb _); simpl; [exact Hin|].
      apply in_or_app. now left.
    + match goal with H : find_timer _ _ = Some ?r |- _ =>
        apply find_timer_In in H; destruct H as [_ Hid] end.
      unfold drop_timer. apply filter_In. split; [exact Hin|].
      rewrite Hid. apply negb_true_iff.
      rewrite Nat.eqb_sym. exact Hev.
  - intros f Hin Hev. revert Hev. step_cases ev; intros Hev; try exact Hin;
      try (apply in_or_app; now left).
    + unfold geocodeResolved. now destruct (negb _ && negb _).
    + match goal with H : find_ai _ _ = Some ?r |- _ =>
        apply find_ai_In in H; destruct H as [_ Hid] end.
      unfold drop_ai. apply filter_In. split; [exact Hin|].
      rewrite Hid. apply negb_true_iff.
      rewrite Nat.eqb_sym. exact Hev.
Qed.

(* the timer set by the answer for A survives the selection of B *)
Lemma nothing_is_cancelled_witness :
  In {| timer_id := 1; timer_form := initialForm; timer_province := "Izmir";
        timer_country := "Turkey" |}
     (timers (run init [EvMapClick pointA; EvGeoResponse 0 izmirData;
                        EvMapClick pointB])).
Proof.
  apply (proj1 (proj2 (nothing_is_cancelled
                         (run init [EvMapClick pointA; EvGeoResponse 0 izmirData])
                         (EvMapClick pointB)))).
  - now left.
  - reflexivity.
Defined.

(** ** Plain requests: outcomes and their order *)

Lemma res_ok_iff : forall status, res_ok status = true <-> (200 <= status <= 299)%Z.
Proof.
  intros status. unfold res_ok. rewrite andb_true_iff, !Z.leb_le. tauto.
Qed.

Lemma rejected_iff_none : forall (A : Type) (o : FetchOutcome A),
  rejected o <->
  match o with
  | NetworkError => None
  | Response status json => if res_ok status then json else None
  end = None.
Proof.
  intros A o. unfold rejected. split.
  - intros [->|[status [json [-> [H|H]]]]]; [reflexivity| |].
    + destruct (res_ok status) eqn:E; [|reflexivity].
      apply res_ok_iff in E. contradiction.
    + subst json. now destruct (res_ok status).
  - destruct o as [|status json]; [now left|]. intros H. right.
    exists status, json. split; [reflexivity|].
    destruct (res_ok status) eqn:E; [now right|].
    left. intros Hr. apply res_ok_iff in Hr. congruence.
Qed.

Lemma find_rec_drop : forall r r' l,
  r <> r' -> find_rec r (drop_rec r' l) = find_rec r l.
Proof.
  intros r r' l Hne. unfold find_rec, drop_rec.
  induction l as [|x l IH]; simpl; [reflexivity|].
  destruct (rec_id x =? r')%nat eqn:E'; simpl.
  - apply Nat.eqb_eq in E'.
    assert (E : (rec_id x =? r)%nat = false) by (apply Nat.eqb_neq; congruence).
    now rewrite E.
  - destruct (rec_id x =? r)%nat; [reflexivity | exact IH].
Qed.

(* what the delivery of a 2xx answer with a body does *)
Lemma recSettled_success : forall w rid f status data,
  find_rec rid (rec_fetches w) = Some f -> (200 <= status <= 299)%Z ->
  ui (step w (EvRecSettled rid (Response status (Some data)))) =
    setLoading false (setResults (data_results data) (ui w)) /\
  rec_fetches (step w (EvRecSettled rid (Response status (Some data)))) =
    drop_rec rid (rec_fetches w).
Proof.
  intros w rid f status data Hf Hs. apply res_ok_iff in Hs.
  simpl. rewrite Hf. unfold recSettled, handleSubmit_settled, autoFetch_settled.
  simpl. rewrite Hs. apply find_rec_In in Hf. destruct Hf as [_ ->].
  split; [now destruct (rec_origin f) | reflexivity].
Qed.

Lemma recSettled_failure : forall w rid f o,
  find_rec rid (rec_fetches w) = Some f -> fetchRecommendations o = None ->
  step w (EvRecSettled rid o) =
  {| ui := setLoading false (setError (Some recommendationError) (ui w));
     controller := controller w; geos := geos w; timers := timers w;
     rec_fetches := drop_rec rid (rec_fetches w);
     ai_fetches := ai_fetches w; next_id := next_id w |}.
Proof.
  intros w rid f o Hf Ho. simpl. rewrite Hf.
  unfold recSettled, handleSubmit_settled, autoFetch_settled. rewrite Ho.
  apply find_rec_In in Hf. destruct Hf as [_ ->]. now destruct (rec_origin f).
Qed.

(** X11.  Of two plain requests in flight that both succeed, the one whose
    answer is delivered last decides the list on display, whichever was
    issued first; and when the later answer is a failure, the list of the
    earlier answer stays on display next to the error message. *)
Theorem last_answer_wins :
  forall w r1 r2 f1 f2 s1 s2 d1 d2,
    find_rec r1 (rec_fetches w) = Some f1 -> find_rec r2 (rec_fetches w) = Some f2 ->
    r1 <> r2 ->
    (200 <= s1 <= 299)%Z -> (200 <= s2 <= 299)%Z ->
    results (ui (run w [EvRecSettled r1 (Response s1 (Some d1));
                        EvRecSettled r2 (Response s2 (Some d2))])) = data_results d2 /\
    results (ui (run w [EvRecSettled r2 (Response s2 (Some d2));
                        EvRecSettled r1 (Response s1 (Some d1))])) = data_results d1 /\
    (forall o, fetchRecommendations o = None ->
       results (ui (run w [EvRecSettled r1 (Response s1 (Some d1));
                           EvRecSettled r2 o])) = data_results d1 /\
       error (ui (run w [EvRecSettled r1 (Response s1 (Some d1));
                         EvRecSettled r2 o])) = Some recommendationError).
Proof.
  intros w r1 r2 f1 f2 s1 s2 d1 d2 H1 H2 Hne Hs1 Hs2.
  assert (Hstep : forall ra rb fa fb sa da,
             find_rec ra (rec_fetches w) = Some fa ->
             find_rec rb (rec_fetches w) = Some fb -> rb <> ra ->
             (200 <= sa <= 299)%Z ->
             find_rec rb (rec_fetches (step w (EvRecSettled ra (Response sa (Some da)))))
               = Some fb /\
             results (ui (step w (EvRecSettled ra (Response sa (Some da)))))
               = data_results da).
  { intros ra rb fa fb sa da Ha Hb Hab Hsa.
    destruct (recSettled_success w ra fa sa da Ha Hsa) as [Hui Hrec].
    rewrite Hui, Hrec. split; [|reflexivity]. now rewrite find_rec_drop. }
  destruct (Hstep r1 r2 f1 f2 s1 d1 H1 H2 (not_eq_sym Hne) Hs1) as [Hf2 Hr1].
  destruct (Hstep r2 r1 f2 f1 s2 d2 H2 H1 Hne Hs2) as [Hf1 Hr2].
  split; [|split].
  - unfold run; cbn [fold_left].
    now rewrite (proj1 (recSettled_success _ r2 f2 s2 d2 Hf2 Hs2)).
  - unfold run; cbn [fold_left].
    now rewrite (proj1 (recSettled_success _ r1 f1 s1 d1 Hf1 Hs1)).
  - intros o Ho. unfold run; cbn [fold_left]. rewrite (recSettled_failure _ r2 f2 o Hf2 Ho).
    simpl. split; [exact Hr1 | reflexivity].
Qed.

(* the submit (request 2) and the auto-fetch (request 3) answer in reverse *)
Lemma last_answer_witness :
  results (ui (run (run izmirWorld [EvMapClick pointA; EvGeoResponse 0 izmirData;
                                    EvSubmit; EvTimer 1])
                   [EvRecSettled 3 (Response 200 (Some {| data_results := [lavender] |}));
                    EvRecSettled 2 (Response 200 (Some {| data_results := [rose] |}))]))
  = [rose].
Proof.
  refine (proj1 (last_answer_wins
                   (run izmirWorld [EvMapClick pointA; EvGeoResponse 0 izmirData;
                                    EvSubmit; EvTimer 1])
                   3 2 _ _ 200 200
                   {| data_results := [lavender] |} {| data_results := [rose] |}
                   eq_refl eq_refl _ _ _)); [discriminate | lia | lia].
Defined.

(** X12.  A failed request is reported the same way whatever made it fail:
    a network error, any status outside 200..299 and a body that does not
    parse all lead to the very same state, for the plain request and for
    the AI request alike. *)
Theorem failures_are_uniform :
  forall w id,
    (forall o1 o2 : FetchOutcome RecommendationsBody,
       rejected o1 -> rejected o2 ->
       step w (EvRecSettled id o1) = step w (EvRecSettled id o2)) /\
    (forall o1 o2 : FetchOutcome AIRecommendationResponse,
       rejected o1 -> rejected o2 ->
       step w (EvAISettled id o1) = step w (EvAISettled id o2)).
Proof.
  intros w id. split; intros o1 o2 H1 H2;
    apply rejected_iff_none in H1; apply rejected_iff_none in H2; simpl.
  - destruct (find_rec id (rec_fetches w)) as [f|]; [|reflexivity].
    unfold recSettled, handleSubmit_settled, autoFetch_settled, fetchRecommendations.
    now rewrite H1, H2.
  - destruct (find_ai id (ai_fetches w)) as [f|]; [|reflexivity].
    unfold aiSettled, handleAIRecommendation_settled, fetchAIRecommendation.
    now rewrite H1, H2.
Qed.

Lemma failures_are_uniform_witness :
  step afterFirstSuccess (EvRecSettled 1 NetworkError) =
  step afterFirstSuccess (EvRecSettled 1 (Response 404 None)).
Proof.
  apply (proj1 (failures_are_uniform afterFirstSuccess 1)).
  - now left.
  - right. exists 404%Z, None. split; [reflexivity|]. left. lia.
Defined.

Lemma sequential_step : forall w ev,
  is_map_click ev = false -> sequential w -> sequential (step w ev).
Proof.
  intros w ev Hev [Hg [Ht Hl]].
  destruct ev as [c| | |pos|gid data|gid|tid|rid o|aid o]; simpl in *;
    try discriminate.
  - split; [exact Hg | split; [exact Ht | exact Hl]].
  - destruct (submit_enabled (ui w)) eqn:He; [|now repeat split].
    unfold submit_enabled in He.
    apply andb_true_iff in He. destruct He as [He _].
    apply andb_true_iff in He. destruct He as [He _].
    apply negb_true_iff in He.
    destruct Hl as [[_ Hnil]|[Hl _]]; [|congruence].
    split; [exact Hg | split; [exact Ht|]]. right. simpl. rewrite Hnil.
    split; [reflexivity|]. eexists. reflexivity.
  - destruct (ai_button_disabled (ui w)); now repeat split.
  - rewrite Hg. simpl. now repeat split.
  - rewrite Hg. simpl. now repeat split.
  - rewrite Ht. simpl. now repeat split.
  - destruct (find_rec rid (rec_fetches w)) as [f|] eqn:Hf; [|now repeat split].
    split; [exact Hg | split; [exact Ht|]]. left.
    destruct Hl as [[_ Hnil]|[_ [f0 Hone]]].
    + rewrite Hnil in Hf. discriminate.
    + unfold recSettled, handleSubmit_settled, autoFetch_settled; simpl.
      split; [now destruct (rec_origin f), (fetchRecommendations o)|].
      rewrite Hone in *. unfold find_rec in Hf. simpl in Hf.
      destruct (rec_id f0 =? rid)%nat eqn:Hid; [|discriminate].
      injection Hf as <-. simpl. now rewrite Nat.eqb_refl.
  - destruct (find_ai aid (ai_fetches w)) as [f|]; [|now repeat split].
    split; [exact Hg | split; [exact Ht|]].
    unfold aiSettled, handleAIRecommendation_settled; simpl.
    now destruct (fetchAIRecommendation o).
Qed.

(** X13.  As long as the map is not used, plain requests go one at a time:
    after any events without a map click, at most one plain request is in
    flight, no timer is pending, and the submit button shows "loading"
    exactly while a request is in flight. *)
Theorem submits_are_sequential :
  forall evs,
    forallb (fun e => negb (is_map_click e)) evs = true ->
    length (rec_fetches (run init evs)) <= 1 /\
    timers (run init evs) = [] /\
    (loading (ui (run init evs)) = true <-> rec_fetches (run init evs) <> []).
Proof.
  assert (H : forall evs w,
             forallb (fun e => negb (is_map_click e)) evs = true ->
             sequential w -> sequential (run w evs)).
  { induction evs as [|ev evs IH]; intros w Hall Hs; simpl in *; [exact Hs|].
    apply andb_true_iff in Hall. destruct Hall as [Hev Hall].
    apply IH; [exact Hall|]. apply sequential_step; [|exact Hs].
    now apply negb_true_iff. }
  intros evs Hall.
  assert (H0 : sequential init).
  { split; [reflexivity | split; [reflexivity|]]. now left. }
  destruct (H evs init Hall H0) as [_ [Ht Hl]].
  split; [|split; [exact Ht|]].
  - destruct Hl as [[_ ->]|[_ [f ->]]]; simpl; lia.
  - destruct Hl as [[Hl ->]|[Hl [f ->]]]; rewrite Hl; split;
      try congruence; try discriminate.
Qed.

Lemma submits_are_sequential_witness :
  length (rec_fetches afterFirstSuccess) <= 1.
Proof.
  refine (proj1 (submits_are_sequential
                   [EvChange (ChangeCity "Izmir"); EvChange (ChangeCountry "Turkey");
                    EvSubmit;
                    EvRecSettled 0 (Response 200 (Some {| data_results := [rose] |}));
                    EvSubmit] eq_refl)).
Defined.




(** ** The AI request: its two outcomes *)




(** X16.  When the AI request fails (network error, status outside
    200..299 or a body that does not parse), the AI error is the fixed AI
    message, while the list on display, a stored AI answer and the error of
    the plain request stay as they were; and after either outcome the AI
    button is enabled again exactly when city and country are filled. *)
Theorem ai_failure_keeps_state :
  forall w aid f,
    find_ai aid (ai_fetches w) = Some f ->
    (forall o, rejected o ->
       aiError (ui (step w (EvAISettled aid o))) =
         Some "AI önerisi alınamadı. Lütfen tekrar deneyin." /\
       results (ui (step w (EvAISettled aid o))) = results (ui w) /\
       aiResult (ui (step w (EvAISettled aid o))) = aiResult (ui w) /\
       error (ui (step w (EvAISettled aid o))) = error (ui w)) /\
    (forall o,
       ai_button_disabled (ui (step w (EvAISettled aid o))) = false <->
       city (form (ui w)) <> "" /\ country (form (ui w)) <> "").
Proof.
  intros w aid f Hf. split.
  - intros o Ho. apply rejected_iff_none in Ho. simpl. rewrite Hf.
    unfold aiSettled, handleAIRecommendation_settled, fetchAIRecommendation.
    rewrite Ho. repeat split; reflexivity.
  - intros o.
    assert (Hd : ai_button_disabled (ui (step w (EvAISettled aid o))) =
                 negb (truthy (city (form (ui w)))) ||
                 negb (truthy (country (form (ui w))))).
    { simpl. rewrite Hf. unfold aiSettled, handleAIRecommendation_settled.
      now destruct (fetchAIRecommendation o). }
    rewrite Hd, orb_false_iff, !negb_false_iff, !truthy_true_iff. tauto.
Qed.

Lemma ai_failure_witness :
  aiError (ui (step (step afterAI EvAIClick) (EvAISettled 1 NetworkError))) =
    Some "AI önerisi alınamadı. Lütfen tekrar deneyin." /\
  aiResult (ui (step (step afterAI EvAIClick) (EvAISettled 1 NetworkError))) =
    Some aiAnswer.
Proof.
  destruct (proj1 (ai_failure_keeps_state (step afterAI EvAIClick) 1
                     {| aif_id := 1; aif_body := aiPayload (form (ui afterAI)) |}
                     eq_refl) NetworkError (or_introl eq_refl)) as [H1 [_ [H3 _]]].
  split; [exact H1 | exact H3].
Defined.

(** ** The auto-fetch: what its body is made of *)

Lemma pending_kept : forall w n g ev,
  find_geo n (geos w) = Some g -> is_pending g = true ->
  is_map_click ev = false -> settles_geo n ev = false ->
  find_geo n (geos (step w ev)) = Some g.
Proof.
  intros w n g ev Hf Hp Hc Hs.
  assert (Hclose : forall gid g', find_geo gid (geos w) = Some g' -> gid <> n ->
             find_geo n (close_geo (geo_id g') GeoSettled (geos w)) = Some g).
  { intros gid g' Hg' Hne. rewrite find_geo_close, Hf. simpl.
    apply find_geo_In in Hg'. destruct Hg' as [_ Hid'].
    apply find_geo_In in Hf. destruct Hf as [_ Hid].
    assert (E : (geo_id g =? geo_id g')%nat = false)
      by (apply Nat.eqb_neq; congruence).
    now rewrite E. }
  destruct ev as [c| | |pos|gid data|gid|tid|rid o|aid o]; simpl in *;
    try discriminate; try exact Hf.
  - now destruct (submit_enabled (ui w)).
  - now destruct (ai_button_disabled (ui w)).
  - apply Nat.eqb_neq in Hs.
    destruct (find_geo gid (geos w)) as [g'|] eqn:Hg'; [|exact Hf].
    destruct (is_pending g'); [|exact Hf].
    unfold geocodeResolved. destruct (negb _ && negb _); simpl; now apply (Hclose gid).
  - apply Nat.eqb_neq in Hs.
    destruct (find_geo gid (geos w)) as [g'|] eqn:Hg'; [|exact Hf].
    destruct (is_pending g'); [|exact Hf]. simpl. now apply (Hclose gid).
  - now destruct (find_timer tid (timers w)).
  - now destruct (find_rec rid (rec_fetches w)).
  - now destruct (find_ai aid (ai_fetches w)).
Qed.

Lemma pending_kept_run : forall n g evs w,
  find_geo n (geos w) = Some g -> is_pending g = true ->
  forallb (fun e => negb (is_map_click e) && negb (settles_geo n e)) evs = true ->
  find_geo n (geos (run w evs)) = Some g.
Proof.
  intros n g. induction evs as [|ev evs IH]; intros w Hf Hp Hall; simpl in *;
    [exact Hf|].
  apply andb_true_iff in Hall. destruct Hall as [Hev Hall].
  apply andb_true_iff in Hev. destruct Hev as [Hc Hs].
  apply negb_true_iff in Hc. apply negb_true_iff in Hs.
  apply IH; [|exact Hp | exact Hall]. now apply pending_kept.
Qed.

Lemma find_timer_app : forall a l1 l2 t,
  find_timer a l1 = Some t -> find_timer a (l1 ++ l2) = Some t.
Proof.
  intros a l1 l2 t. unfold find_timer.
  induction l1 as [|x l1 IH]; simpl; [discriminate|].
  destruct (timer_id x =? a)%nat; [trivial | exact IH].
Qed.

Lemma find_timer_drop : forall a a' l,
  a <> a' -> find_timer a (drop_timer a' l) = find_timer a l.
Proof.
  intros a a' l Hne. unfold find_timer, drop_timer.
  induction l as [|x l IH]; simpl; [reflexivity|].
  destruct (timer_id x =? a')%nat eqn:E'; simpl.
  - apply Nat.eqb_eq in E'.
    assert (E : (timer_id x =? a)%nat = false) by (apply Nat.eqb_neq; congruence).
    now rewrite E.
  - destruct (timer_id x =? a)%nat; [reflexivity | exact IH].
Qed.

Lemma timer_kept : forall w tid t ev,
  find_timer tid (timers w) = Some t -> fires_timer tid ev = false ->
  find_timer tid (timers (step w ev)) = Some t.
Proof.
  intros w tid t ev Hf Hev.
  destruct ev as [c| | |pos|gid data|gid|a|rid o|aid o]; simpl in *; try exact Hf.
  - now destruct (submit_enabled (ui w)).
  - now destruct (ai_button_disabled (ui w)).
  - destruct (find_geo gid (geos w)) as [g|]; [|exact Hf].
    destruct (is_pending g); [|exact Hf].
    unfold geocodeResolved. destruct (negb _ && negb _); simpl; [exact Hf|].
    now apply find_timer_app.
  - destruct (find_geo gid (geos w)) as [g|]; [|exact Hf].
    now destruct (is_pending g).
  - apply Nat.eqb_neq in Hev.
    destruct (find_timer a (timers w)) as [t'|] eqn:Ha; [|exact Hf]. simpl.
    apply find_timer_In in Ha. destruct Ha as [_ ->].
    rewrite find_timer_drop; [exact Hf | congruence].
  - now destruct (find_rec rid (rec_fetches w)).
  - now destruct (find_ai aid (ai_fetches w)).
Qed.

Lemma timer_kept_run : forall tid t evs w,
  find_timer tid (timers w) = Some t ->
  forallb (fun e => negb (fires_timer tid e)) evs = true ->
  find_timer tid (timers (run w evs)) = Some t.
Proof.
  intros tid t. induction evs as [|ev evs IH]; intros w Hf Hall; simpl in *;
    [exact Hf|].
  apply andb_true_iff in Hall. destruct Hall as [Hev Hall].
  apply negb_true_iff in Hev.
  apply IH; [|exact Hall]. now apply timer_kept.
Qed.

(** X17.  The body of the request that the timer issues after geocoding is
    fixed when the point is selected: it is the form as it stood at the map
    click, with the resolved place and country merged in.  Whatever happens
    between the click and the response (short of another click), and between
    the response and the firing of the timer, edits of the form included,
    does not reach the body. *)
Theorem auto_fetch_body_fixed_at_click :
  forall w pos evs1 data evs2,
    reachable w ->
    let n := next_id w in
    let w1 := run (step w (EvMapClick pos)) evs1 in
    let tid := next_id w1 in
    let w2 := run (step w1 (EvGeoResponse n data)) evs2 in
    let prov := resolvedProvince (addressOf data) in
    let ctry := resolvedCountry (addressOf data) in
    forallb (fun e => negb (is_map_click e) && negb (settles_geo n e)) evs1 = true ->
    prov <> "" \/ ctry <> "" ->
    forallb (fun e => negb (fires_timer tid e)) evs2 = true ->
    rec_fetches (step w2 (EvTimer tid)) =
    (rec_fetches w2 ++
     [{| rec_id := next_id w2;
         rec_body := mergeLocation prov ctry (form (ui w));
         rec_origin := FromTimer |}])%list.
Proof.
  intros w pos evs1 data evs2 Hr n w1 tid w2 prov ctry H1 Hsome H2.
  pose proof (world_inv_reachable w Hr) as Hinv.
  set (new := {| geo_id := n; geo_pos := pos; geo_form := form (ui w);
                 geo_status := GeoPending |}).
  assert (Hfind0 : find_geo n (geos (step w (EvMapClick pos))) = Some new).
  { simpl. apply find_geo_fresh; [|reflexivity].
    intros x Hx. now apply (cleaned_fresh w Hinv). }
  assert (Hfind : find_geo n (geos w1) = Some new).
  { unfold w1. now apply pending_kept_run. }
  assert (Hr1 : reachable w1).
  { unfold w1. apply reachable_run. now constructor. }
  destruct (geocode_merges w1 n new data Hfind eq_refl Hsome) as [_ Htimers].
  set (t := {| timer_id := next_id w1; timer_form := geo_form new;
               timer_province := resolvedProvince (addressOf data);
               timer_country := resolvedCountry (addressOf data) |}) in *.
  assert (Ht : find_timer tid (timers (step w1 (EvGeoResponse n data))) = Some t).
  { rewrite Htimers. apply find_timer_fresh; [|reflexivity].
    exact (inv_timer_fresh w1 (world_inv_reachable w1 Hr1)). }
  assert (Ht2 : find_timer tid (timers w2) = Some t).
  { unfold w2. now apply timer_kept_run. }
  rewrite (timer_body_from_click_form w2 tid t Ht2). reflexivity.
Qed.

(* the user changes the sun exposure before the answer and the city after
   it: neither edit is in the body *)
Lemma auto_fetch_body_fixed_witness :
  rec_fetches
    (step (run (step (run (step init (EvMapClick pointA))
                          [EvChange (ChangeSunExposure shade)])
                     (EvGeoResponse 0 izmirData))
               [EvChange (ChangeCity "Ankara")])
          (EvTimer 1)) =
  [{| rec_id := 2; rec_body := withLocation initialForm "Izmir" "Turkey";
      rec_origin := FromTimer |}].
Proof.
  refine (auto_fetch_body_fixed_at_click init pointA
            [EvChange (ChangeSunExposure shade)] izmirData
            [EvChange (ChangeCity "Ankara")] reach_init eq_refl _ eq_refl).
  left. discriminate.
Defined.

(* the map is clicked and nothing else happens until the timer has fired *)
Lemma auto_fetch_body_without_edits_witness :
  map rec_body
      (rec_fetches (run izmirWorld [EvMapClick pointA; EvGeoResponse 0 countryOnly;
                                    EvTimer 1])) =
  [form (ui (run izmirWorld [EvMapClick pointA; EvGeoResponse 0 countryOnly;
                             EvTimer 1]))].
Proof.
  assert (Hsome : resolvedProvince (addressOf countryOnly) <> "" \/
                  resolvedCountry (addressOf countryOnly) <> "")
    by (right; discriminate).
  exact (f_equal (map rec_body)
           (auto_fetch_body_without_edits izmirWorld pointA countryOnly
              izmirWorld_reachable Hsome)).
Defined.

(** ** The result list as rendered *)

(** X19.  The result panel is consistent with the list: with an empty list
    it shows the hint and no count; otherwise it shows one card per plant,
    in the order of the list, each with the plant's id as key, its name and
    its score, and the count badge shows the number of cards. *)
Theorem results_view_matches_list :
  forall s,
    (results s = [] -> renderResults s = EmptyHint /\ renderCount s = None) /\
    (results s <> [] ->
       exists cards,
         renderResults s = Cards cards /\
         renderCount s = Some (length cards) /\
         length cards = length (results s) /\
         map card_key cards = map plant_id (results s) /\
         map card_name cards = map name_tr (results s) /\
         map card_score cards = map total_score (results s)).
Proof.
  intros s. unfold renderResults, renderCount. split.
  - intros ->. split; reflexivity.
  - intros Hne. exists (map plantCard (results s)).
    destruct (results s) as [|p rs]; [congruence|].
    rewrite !map_map, length_map. simpl. repeat split; reflexivity.
Qed.

(* the example of a single plant with score 87 *)
Lemma results_view_witness :
  exists cards,
    renderResults (ui afterFirstSuccess) = Cards cards /\
    renderCount (ui afterFirstSuccess) = Some (length cards) /\
    length cards = 1 /\
    map card_key cards = [1%Z] /\
    map card_name cards = ["Gül"] /\
    map card_score cards = [87%Z].
Proof.
  apply (proj2 (results_view_matches_list (ui afterFirstSuccess))).
  discriminate.
Defined.

(** X20.  The badge of a card takes its background and its text colour from
    the same palette: green for the status "Çok Uygun", blue for "Uygun",
    and red for every other status text. *)
Theorem badge_colours_are_paired :
  forall plant,
    let status := suitability_status plant in
    let card := plantCard plant in
    (status = "Çok Uygun" -> card_bg card = "#dcfce7" /\ card_color card = "#166534") /\
    (status = "Uygun" -> card_bg card = "#e0f2fe" /\ card_color card = "#075985") /\
    (status <> "Çok Uygun" -> status <> "Uygun" ->
       card_bg card = "#fee2e2" /\ card_color card = "#b91c1c").
Proof.
  intros plant status card. unfold card, plantCard, bgColor, textColor; simpl.
  fold status. split; [|split].
  - intros ->. split; reflexivity.
  - intros ->. split; reflexivity.
  - intros H1 H2. apply String.eqb_neq in H1. apply String.eqb_neq in H2.
    rewrite H1, H2. split; reflexivity.
Qed.

Lemma badge_colours_witness :
  card_bg (plantCard lavender) = "#dcfce7" /\
  card_color (plantCard lavender) = "#166534".
Proof.
  apply (proj1 (badge_colours_are_paired lavender)). reflexivity.
Defined.
